(** * Orderflow telemetry backend: metric engine and sizing ramp

    A shallow embedding of the TypeScript sources of the repository and the
    properties its specification states about them.

    Modelling conventions.
    - A JavaScript [number] is modelled at the precision the property
      needs.  Where only the order of numbers, the selection among them or
      the order of the additions matters, it is an exact rational ([Q]).
      Where the source tests [Number.isFinite] / [isNaN] or compares with
      a possibly non-finite value (the sizing computation, the
      open-interest monitor) the three non-finite values are represented
      too, see [JsNumber.number]; there a theorem relates the numbers the
      code returns through the code's own operations and does not say what
      rounding does to them.  Where rounding, overflow and the
      propagation of [NaN] decide the property (the bounds of the sizing
      ramp, the sign of a rounded quantity) the numbers are IEEE 754
      binary64 values with correctly rounded operations, see [Binary64].
    - Timestamps and durations are integral millisecond counts ([Z]), as
      [Date.now()] and the exchange's event times are.
    - [Date.now()] is an explicit argument [now] of every operation that
      reads the clock.
    - A call runs to its end before the next begins, except where a
      definition says otherwise: the one asynchronous method,
      [OpenInterestMonitor.updateOpenInterest], is also given in two
      parts, before and after its awaits.
    - A JS [Map] that the source iterates is a list of entries in
      insertion order; one it only reads and writes by key is a [gmap].
      A [Map<number, number>] of price levels is a [gmap Qc Q]: keys are
      compared by value, hence canonical rationals, and the only iteration
      over it sorts the entries by key. *)

From Stdlib Require Import QArith Qcanon Qround Qminmax Lqa ZArith Lia List.
From Stdlib Require Import Sorted Permutation.
From Stdlib Require SpecFloat.
From stdpp Require Import gmap strings list fin_maps.

(* ===================================================================== *)
(** * JavaScript numbers with their non-finite values *)
(* ===================================================================== *)

(** A number is [NaN], an infinity or a finite value.  Finite values are
    exact rationals: the operations on them neither round nor overflow.
    What is proved over these numbers relates the numbers a call returns
    through the comparisons and the operations of the code; it does not
    say what rounding makes of an operation. *)
Module JsNumber.

#[local] Open Scope Q_scope.

Inductive number : Type :=
  | NaN
  | PInf
  | NInf
  | Fin (q : Q).

Definition isFinite (x : number) : bool :=
  match x with Fin _ => true | _ => false end.

Definition isNaN (x : number) : bool :=
  match x with NaN => true | _ => false end.

Definition zero : number := Fin 0.

(** [x >= y]; every comparison with [NaN] is false. *)
Definition geb (x y : number) : bool :=
  match x, y with
  | NaN, _ | _, NaN => false
  | PInf, _ => true
  | _, NInf => true
  | NInf, _ => false
  | Fin _, PInf => false
  | Fin a, Fin b => Qle_bool b a
  end.

(** [x > y]. *)
Definition gtb (x y : number) : bool :=
  match x, y with
  | NaN, _ | _, NaN => false
  | PInf, PInf => false
  | PInf, _ => true
  | NInf, _ => false
  | Fin _, NInf => true
  | Fin _, PInf => false
  | Fin a, Fin b => negb (Qle_bool a b)
  end.

Definition leb (x y : number) : bool := geb y x.
Definition ltb (x y : number) : bool := gtb y x.

(** [x === y] on numbers. *)
Definition eqb (x y : number) : bool :=
  match x, y with
  | PInf, PInf | NInf, NInf => true
  | Fin a, Fin b => Qeq_bool a b
  | _, _ => false
  end.

(** An infinity of sign [pos] multiplied (or divided) by the finite [q]. *)
Definition scale_inf (pos : bool) (q : Q) : number :=
  match q ?= 0 with
  | Eq => NaN
  | Gt => if pos then PInf else NInf
  | Lt => if pos then NInf else PInf
  end.

Definition mul (x y : number) : number :=
  match x, y with
  | NaN, _ | _, NaN => NaN
  | Fin a, Fin b => Fin (a * b)
  | PInf, Fin b | Fin b, PInf => scale_inf true b
  | NInf, Fin b | Fin b, NInf => scale_inf false b
  | PInf, PInf | NInf, NInf => PInf
  | PInf, NInf | NInf, PInf => NInf
  end.

(** Division.  A zero divisor is read as [+0]: no division of the sources
    modelled here has a zero divisor (see [Sizing.never_divides_by_zero]). *)
Definition div (x y : number) : number :=
  match x, y with
  | NaN, _ | _, NaN => NaN
  | Fin a, Fin b =>
      if Qeq_bool b 0 then
        match a ?= 0 with Eq => NaN | Gt => PInf | Lt => NInf end
      else Fin (a / b)
  | Fin _, _ => Fin 0
  | PInf, Fin b => if Qeq_bool b 0 then PInf else scale_inf true b
  | NInf, Fin b => if Qeq_bool b 0 then NInf else scale_inf false b
  | _, _ => NaN
  end.

Definition sub (x y : number) : number :=
  match x, y with
  | NaN, _ | _, NaN => NaN
  | Fin a, Fin b => Fin (a - b)
  | PInf, PInf | NInf, NInf => NaN
  | PInf, _ | _, NInf => PInf
  | NInf, _ | _, PInf => NInf
  end.

(** [Math.floor]. *)
Definition floor (x : number) : number :=
  match x with
  | Fin q => Fin (inject_Z (Qfloor q))
  | other => other
  end.

(** [Math.max] of two numbers. *)
Definition max (x y : number) : number :=
  match x, y with
  | NaN, _ | _, NaN => NaN
  | _, _ => if geb x y then x else y
  end.

Definition is_zero (x : number) : bool :=
  match x with Fin q => Qeq_bool q 0 | _ => false end.

(** [Math.round]: the nearest integer, a half going up. *)
Definition round (x : number) : number :=
  match x with
  | Fin q => Fin (inject_Z (Qfloor (q + (1 # 2))))
  | other => other
  end.

(** [Math.min] of two numbers. *)
Definition min (x y : number) : number :=
  match x, y with
  | NaN, _ | _, NaN => NaN
  | _, _ => if leb x y then x else y
  end.

Lemma Qeq_bool_pos (x : Q) : 0 < x -> Qeq_bool x 0 = false.
Proof.
  intros H. destruct (Qeq_bool x 0) eqn:E; [|reflexivity].
  apply Qeq_bool_iff in E. lra.
Qed.

Lemma Qle_bool_false (x y : Q) : Qle_bool x y = false <-> y < x.
Proof.
  split; intros H.
  - apply Qnot_le_lt. intros Hle. apply Qle_bool_iff in Hle. congruence.
  - destruct (Qle_bool x y) eqn:E; [|reflexivity].
    apply Qle_bool_iff in E. lra.
Qed.

Lemma Qle_bool_pos (x : Q) : 0 < x -> Qle_bool x 0 = false.
Proof. intros H. apply Qle_bool_false. exact H. Qed.

Lemma gtb_Fin (a b : Q) : gtb (Fin a) (Fin b) = true <-> (b < a)%Q.
Proof.
  simpl. rewrite negb_true_iff. split.
  - intros H. apply Qnot_le_lt. intros Hle.
    apply Qle_bool_iff in Hle. congruence.
  - intros H. destruct (Qle_bool a b) eqn:E; [|reflexivity].
    apply Qle_bool_iff in E. lra.
Qed.

Lemma geb_Fin (a b : Q) : geb (Fin a) (Fin b) = true <-> (b <= a)%Q.
Proof. simpl. apply Qle_bool_iff. Qed.

Lemma leb_Fin (a b : Q) : leb (Fin a) (Fin b) = true <-> (a <= b)%Q.
Proof. unfold leb. apply geb_Fin. Qed.

Lemma gtb_leb_false (x y : number) : gtb x y = true -> leb x y = false.
Proof.
  unfold leb. destruct x, y; simpl; try congruence.
  rewrite negb_true_iff. intros H.
  destruct (Qle_bool q q0) eqn:E; congruence.
Qed.

Lemma leb_gtb_false (x y : number) : leb x y = true -> gtb x y = false.
Proof.
  intros H. destruct (gtb x y) eqn:E; [|reflexivity].
  apply gtb_leb_false in E. congruence.
Qed.

Lemma gtb_zero_not_is_zero (x : number) : gtb x zero = true -> is_zero x = false.
Proof.
  destruct x; simpl; try reflexivity.
  rewrite negb_true_iff. intros H.
  destruct (Qeq_bool q 0) eqn:E; [|reflexivity].
  apply Qeq_bool_iff in E.
  assert (Hle : Qle_bool q 0 = true) by (apply Qle_bool_iff; lra).
  congruence.
Qed.

End JsNumber.

(* ===================================================================== *)
(** * IEEE 754 binary64 numbers *)
(* ===================================================================== *)

(** The numbers of JavaScript as they are: binary64 values, with the
    operations of the Standard Library's specification of IEEE 754
    arithmetic ([SpecFloat], precision 53, round to nearest, ties to even).
    Here a product can overflow to an infinity and [Infinity * 0] is [NaN],
    which the exact numbers above cannot show. *)
Module Binary64.

Import SpecFloat.
#[local] Open Scope Z_scope.

Definition number : Type := spec_float.

Definition prec : Z := 53.
Definition emax : Z := 1024.

Definition NaN : number := S754_nan.

Definition add : number -> number -> number := SFadd prec emax.
Definition sub : number -> number -> number := SFsub prec emax.
Definition mul : number -> number -> number := SFmul prec emax.
Definition div : number -> number -> number := SFdiv prec emax.

(** The number a decimal integer literal denotes: the nearest binary64. *)
Definition of_Z (z : Z) : number := binary_normalize prec emax z 0 false.

Definition zero : number := S754_zero false.
Definition one : number := Eval vm_compute in of_Z 1.
Definition hundred : number := Eval vm_compute in of_Z 100.

Definition isNaN (x : number) : bool :=
  match x with S754_nan => true | _ => false end.

(** [Number.isFinite]. *)
Definition isFinite (x : number) : bool :=
  match x with S754_zero _ | S754_finite _ _ _ => true | _ => false end.

(** [x < y], [x <= y], [x > y], [x >= y]: false when either is [NaN]. *)
Definition ltb : number -> number -> bool := SFltb.
Definition leb : number -> number -> bool := SFleb.
Definition gtb (x y : number) : bool := SFltb y x.
Definition geb (x y : number) : bool := SFleb y x.

(** [Math.floor]: the value [m * 2^e] of a finite number, floored as an
    integer, which is below [2^53] when [e < 0] and so a binary64 number. *)
Definition floor (x : number) : number :=
  match x with
  | S754_finite s m e =>
      if 0 <=? e then x
      else
        match (if s then Zneg m else Zpos m) / 2 ^ (- e) with
        | Z0 => S754_zero s
        | n => of_Z n
        end
  | _ => x
  end.

(** [Math.max]: [NaN] if either argument is; of two zeros, [+0]. *)
Definition Math_max (x y : number) : number :=
  if isNaN x || isNaN y then NaN
  else if ltb x y then y
  else if ltb y x then x
  else match x with S754_zero true => y | _ => x end.

(** [Math.min]: [NaN] if either argument is; of two zeros, [-0]. *)
Definition Math_min (x y : number) : number :=
  if isNaN x || isNaN y then NaN
  else if ltb x y then x
  else if ltb y x then y
  else match x with S754_zero false => y | _ => x end.

(** ** Order *)

Lemma compare_refl (x : number) :
  isNaN x = false -> SFcompare x x = Some Eq.
Proof.
  destruct x as [s|s| |s m e]; try discriminate; intros _; simpl.
  - reflexivity.
  - destruct s; reflexivity.
  - rewrite Z.compare_refl.
    assert (H : Pos.compare_cont Eq m m = Eq) by apply Pos.compare_refl.
    rewrite H. destruct s; reflexivity.
Qed.

Lemma compare_antisym (x y : number) :
  SFcompare y x = option_map CompOpp (SFcompare x y).
Proof.
  destruct x as [sx|sx| |sx mx ex], y as [sy|sy| |sy my ey]; simpl;
    try reflexivity;
    try (destruct sx; reflexivity);
    try (destruct sy; reflexivity);
    try (destruct sx, sy; reflexivity).
  destruct sx, sy; simpl; try reflexivity;
    rewrite (Z.compare_antisym ex ey);
    destruct (ex ?= ey); simpl; try reflexivity;
    rewrite (Pos.compare_cont_antisym mx my Eq); reflexivity.
Qed.

Lemma compare_defined (x y : number) :
  isNaN x = false -> isNaN y = false -> exists c, SFcompare x y = Some c.
Proof.
  destruct x as [sx|sx| |sx mx ex], y as [sy|sy| |sy my ey];
    try discriminate; intros _ _; simpl; eexists; reflexivity.
Qed.

Lemma leb_refl (x : number) : isNaN x = false -> leb x x = true.
Proof. intros H. unfold leb, SFleb. rewrite (compare_refl x H). reflexivity. Qed.

Lemma ltb_leb (x y : number) : ltb x y = true -> leb x y = true.
Proof.
  unfold ltb, leb, SFltb, SFleb.
  destruct (SFcompare x y) as [[| |]|]; congruence.
Qed.

Lemma leb_not_nan (x y : number) :
  leb x y = true -> isNaN x = false /\ isNaN y = false.
Proof.
  destruct x as [sx|sx| |sx mx ex], y as [sy|sy| |sy my ey];
    try discriminate; intros _; split; reflexivity.
Qed.

(** Of two numbers neither of which is below the other, each is at most
    the other. *)
Lemma not_ltb_leb (x y : number) :
  isNaN x = false -> isNaN y = false ->
  ltb x y = false -> leb y x = true.
Proof.
  intros Hx Hy. unfold ltb, leb, SFltb, SFleb.
  rewrite (compare_antisym x y).
  destruct (compare_defined x y Hx Hy) as [c Hc]. rewrite Hc.
  destruct c; simpl; congruence.
Qed.

Lemma Math_max_nan (x y : number) :
  isNaN (Math_max x y) = isNaN x || isNaN y.
Proof.
  unfold Math_max. destruct (isNaN x) eqn:Hx; [reflexivity|].
  destruct (isNaN y) eqn:Hy; [reflexivity|]. simpl.
  destruct (ltb x y); [exact Hy|].
  destruct (ltb y x); [exact Hx|].
  destruct x as [[|]| | |]; assumption.
Qed.

Lemma Math_min_nan (x y : number) :
  isNaN (Math_min x y) = isNaN x || isNaN y.
Proof.
  unfold Math_min. destruct (isNaN x) eqn:Hx; [reflexivity|].
  destruct (isNaN y) eqn:Hy; [reflexivity|]. simpl.
  destruct (ltb x y); [exact Hx|].
  destruct (ltb y x); [exact Hy|].
  destruct x as [[|]| | |]; assumption.
Qed.

(** [Math.max] returns one of its arguments, and neither is above it. *)
Lemma Math_max_spec (x y : number) :
  isNaN x = false -> isNaN y = false ->
  (Math_max x y = x \/ Math_max x y = y) /\
  leb x (Math_max x y) = true /\ leb y (Math_max x y) = true.
Proof.
  intros Hx Hy. unfold Math_max. rewrite Hx, Hy. simpl.
  destruct (ltb x y) eqn:Hxy.
  - split; [right; reflexivity|]. split; [apply ltb_leb; exact Hxy|].
    apply leb_refl; exact Hy.
  - destruct (ltb y x) eqn:Hyx.
    + split; [left; reflexivity|]. split; [apply leb_refl; exact Hx|].
      apply ltb_leb; exact Hyx.
    + pose proof (not_ltb_leb x y Hx Hy Hxy) as Hle1.
      pose proof (not_ltb_leb y x Hy Hx Hyx) as Hle2.
      destruct x as [[|]| | |];
        first [ split; [left; reflexivity|];
                split; [apply leb_refl; assumption | exact Hle1]
              | split; [right; reflexivity|];
                split; [exact Hle2 | apply leb_refl; assumption] ].
Qed.

(** [Math.min] returns one of its arguments, and neither is below it. *)
Lemma Math_min_spec (x y : number) :
  isNaN x = false -> isNaN y = false ->
  (Math_min x y = x \/ Math_min x y = y) /\
  leb (Math_min x y) x = true /\ leb (Math_min x y) y = true.
Proof.
  intros Hx Hy. unfold Math_min. rewrite Hx, Hy. simpl.
  destruct (ltb x y) eqn:Hxy.
  - split; [left; reflexivity|]. split; [apply leb_refl; exact Hx|].
    apply ltb_leb; exact Hxy.
  - destruct (ltb y x) eqn:Hyx.
    + split; [right; reflexivity|]. split; [apply ltb_leb; exact Hyx|].
      apply leb_refl; exact Hy.
    + pose proof (not_ltb_leb x y Hx Hy Hxy) as Hle1.
      pose proof (not_ltb_leb y x Hy Hx Hyx) as Hle2.
      destruct x as [[|]| | |];
        first [ split; [left; reflexivity|];
                split; [apply leb_refl; assumption | exact Hle2]
              | split; [right; reflexivity|];
                split; [exact Hle1 | apply leb_refl; assumption] ].
Qed.

(** A number between two finite numbers is finite. *)
Lemma between_finite (lo b hi : number) :
  leb lo b = true -> leb b hi = true ->
  isFinite lo = true -> isFinite hi = true -> isFinite b = true.
Proof.
  destruct b as [s|s| |s m e]; try reflexivity.
  - destruct s.
    + destruct lo as [sl|sl| |sl ml el]; try discriminate.
    + destruct hi as [sh|sh| |sh mh eh]; try discriminate;
        destruct lo; discriminate.
  - destruct lo; discriminate.
Qed.

(** ** Rounding never yields [NaN] *)

Lemma shr_1_nonneg (mrs : shr_record) :
  0 <= shr_m mrs -> 0 <= shr_m (shr_1 mrs).
Proof.
  destruct mrs as [m r s]. destruct m as [|p|p]; simpl; intros H;
    try lia; destruct p; simpl; lia.
Qed.

Lemma iter_shr_1_nonneg (n : positive) (mrs : shr_record) :
  0 <= shr_m mrs -> 0 <= shr_m (iter_pos shr_1 n mrs).
Proof.
  revert mrs. induction n as [n IH|n IH|]; intros mrs H; simpl.
  - apply IH, IH, shr_1_nonneg, H.
  - apply IH, IH, H.
  - apply shr_1_nonneg, H.
Qed.

Lemma shr_fexp_nonneg (m e : Z) (l : location) :
  0 <= m -> 0 <= shr_m (fst (shr_fexp prec emax m e l)).
Proof.
  intros H. unfold shr_fexp, shr.
  assert (H0 : 0 <= shr_m (shr_record_of_loc m l)).
  { destruct l as [|[| |]]; exact H. }
  destruct (fexp prec emax (Zdigits2 m + e) - e) as [|p|p]; simpl;
    try exact H0.
  apply iter_shr_1_nonneg, H0.
Qed.

Lemma round_nearest_even_nonneg (m : Z) (l : location) :
  0 <= m -> 0 <= round_nearest_even m l.
Proof.
  intros H. destruct l as [|[| |]]; simpl; try lia.
  destruct (Z.even m); lia.
Qed.

Lemma binary_round_aux_not_nan (sx : bool) (mx ex : Z) (lx : location) :
  0 <= mx -> isNaN (binary_round_aux prec emax sx mx ex lx) = false.
Proof.
  intros H. unfold binary_round_aux.
  pose proof (shr_fexp_nonneg mx ex lx H) as H1.
  destruct (shr_fexp prec emax mx ex lx) as [mrs' e'].
  cbn [fst] in H1.
  pose proof (shr_fexp_nonneg
                (round_nearest_even (shr_m mrs') (loc_of_shr_record mrs'))
                e' loc_Exact
                (round_nearest_even_nonneg _ _ H1)) as H2.
  destruct (shr_fexp prec emax
              (round_nearest_even (shr_m mrs') (loc_of_shr_record mrs'))
              e' loc_Exact) as [mrs'' e''].
  cbn [fst] in H2.
  destruct (shr_m mrs'') as [|p|p]; [reflexivity| |lia].
  destruct (e'' <=? emax - prec); reflexivity.
Qed.

(** The product of two finite numbers is a number: it may overflow to an
    infinity, it is never [NaN]. *)
Lemma mul_finite_not_nan (x y : number) :
  isFinite x = true -> isFinite y = true -> isNaN (mul x y) = false.
Proof.
  destruct x as [sx|sx| |sx mx ex], y as [sy|sy| |sy my ey];
    try discriminate; intros _ _; try reflexivity.
  apply binary_round_aux_not_nan. lia.
Qed.

End Binary64.

(* ===================================================================== *)
(** * Sizing computation ([roundDownToStep], [computeSizingFromBudget]) *)
(* ===================================================================== *)

Module Sizing.

Import JsNumber.
#[local] Open Scope Q_scope.

Inductive BlockedReason : Type := min_notional.

Module Input.
Record t : Type := mk {
  startingMarginUsdt : number;
  currentMarginBudgetUsdt : number;
  leverage : number;
  markPrice : number;
  stepSize : number;
  minNotionalUsdt : number
}.
End Input.

Record SizingComputation : Type := mkSizingComputation {
  markPrice : number;
  startingMarginUsdt : number;
  currentMarginBudgetUsdt : number;
  rampMult : number;
  leverage : number;
  notionalUsdt : number;
  qty : number;
  qtyRounded : number;
  minNotionalOk : bool;
  marginRequiredUsdt : number;
  blockedReason : option BlockedReason
}.

(** The source is written once, over the monad in which its divisions run:
    the identity gives the function as JavaScript evaluates it, [option]
    with [checked_div] gives the same function stopping at a zero divisor. *)
Section Generic.

Context {M : Type -> Type}.
Variable ret : forall A : Type, A -> M A.
Variable bind : forall A B : Type, M A -> (A -> M B) -> M B.
Variable divide : number -> number -> M number.

#[local] Notation "'let*' x ':=' c 'in' k" := (bind _ _ c (fun x => k))
  (at level 10, x name, c at level 200, k at level 200, only parsing).

Definition roundDownToStepM (rawQty stepSize : number) : M number :=
  if negb (isFinite rawQty) || leb rawQty zero then ret _ zero
  else if negb (isFinite stepSize) || leb stepSize zero then ret _ zero
  else
    let* quotient := divide rawQty stepSize in
    let units := floor quotient in
    ret _ (mul units stepSize).

Definition computeSizingFromBudgetM (input : Input.t) : M SizingComputation :=
  let notional :=
    mul (Input.currentMarginBudgetUsdt input) (Input.leverage input) in
  let* qty_ := (if gtb (Input.markPrice input) zero
                then divide notional (Input.markPrice input)
                else ret _ zero) in
  let* qtyRounded_ := roundDownToStepM qty_ (Input.stepSize input) in
  let computedNotional := mul qtyRounded_ (Input.markPrice input) in
  let minNotionalOk_ := geb computedNotional (Input.minNotionalUsdt input) in
  let blockedReason_ :=
    if leb qtyRounded_ zero || negb minNotionalOk_
    then Some min_notional else None in
  let* rampMult_ := (if gtb (Input.startingMarginUsdt input) zero
                     then divide (Input.currentMarginBudgetUsdt input)
                                 (Input.startingMarginUsdt input)
                     else ret _ zero) in
  let* marginRequired_ := (if gtb (Input.leverage input) zero
                           then divide computedNotional (Input.leverage input)
                           else ret _ computedNotional) in
  ret _ {| markPrice := Input.markPrice input;
           startingMarginUsdt := Input.startingMarginUsdt input;
           currentMarginBudgetUsdt := Input.currentMarginBudgetUsdt input;
           rampMult := rampMult_;
           leverage := Input.leverage input;
           notionalUsdt := computedNotional;
           qty := qty_;
           qtyRounded := qtyRounded_;
           minNotionalOk := minNotionalOk_;
           marginRequiredUsdt := marginRequired_;
           blockedReason := blockedReason_ |}.

End Generic.

Definition id_ret (A : Type) (a : A) : A := a.
Definition id_bind (A B : Type) (a : A) (k : A -> B) : B := k a.

Definition opt_ret (A : Type) (a : A) : option A := Some a.
Definition opt_bind (A B : Type) (c : option A) (k : A -> option B) : option B :=
  match c with Some a => k a | None => None end.

(** Division that refuses a zero divisor. *)
Definition checked_div (x y : number) : option number :=
  if is_zero y then None else Some (div x y).

Definition roundDownToStep : number -> number -> number :=
  roundDownToStepM (M := fun A => A) id_ret id_bind div.

Definition computeSizingFromBudget : Input.t -> SizingComputation :=
  computeSizingFromBudgetM (M := fun A => A) id_ret id_bind div.

Definition computeSizingFromBudget_checked : Input.t -> option SizingComputation :=
  computeSizingFromBudgetM opt_ret opt_bind checked_div.

(** The quantity of the sizing rule as the specification writes it:
    [floor((budget * leverage / markPrice) / stepSize) * stepSize]. *)
Definition spec_qtyRounded (budget lev mark step : Q) : Q :=
  inject_Z (Qfloor ((budget * lev / mark) / step)) * step.

Definition finite_input (sm budget lev mark step mn : Q) : Input.t :=
  Input.mk (Fin sm) (Fin budget) (Fin lev) (Fin mark) (Fin step) (Fin mn).

(** ** Unfolding equations *)

Lemma roundDownToStep_eq (rawQty step : number) :
  roundDownToStep rawQty step =
    if negb (isFinite rawQty) || leb rawQty zero then zero
    else if negb (isFinite step) || leb step zero then zero
    else mul (floor (div rawQty step)) step.
Proof. reflexivity. Qed.

Lemma qty_eq (input : Input.t) :
  qty (computeSizingFromBudget input) =
    if gtb (Input.markPrice input) zero
    then div (mul (Input.currentMarginBudgetUsdt input) (Input.leverage input))
             (Input.markPrice input)
    else zero.
Proof. reflexivity. Qed.

Lemma qtyRounded_eq (input : Input.t) :
  qtyRounded (computeSizingFromBudget input) =
    roundDownToStep (qty (computeSizingFromBudget input)) (Input.stepSize input).
Proof. reflexivity. Qed.

Lemma notionalUsdt_eq (input : Input.t) :
  notionalUsdt (computeSizingFromBudget input) =
    mul (qtyRounded (computeSizingFromBudget input)) (Input.markPrice input).
Proof. reflexivity. Qed.

Lemma blockedReason_eq (input : Input.t) :
  blockedReason (computeSizingFromBudget input) =
    if leb (qtyRounded (computeSizingFromBudget input)) zero
       || negb (geb (notionalUsdt (computeSizingFromBudget input))
                    (Input.minNotionalUsdt input))
    then Some min_notional else None.
Proof. reflexivity. Qed.

Lemma marginRequiredUsdt_eq (input : Input.t) :
  marginRequiredUsdt (computeSizingFromBudget input) =
    if gtb (Input.leverage input) zero
    then div (notionalUsdt (computeSizingFromBudget input)) (Input.leverage input)
    else notionalUsdt (computeSizingFromBudget input).
Proof. reflexivity. Qed.

(** ** The guards of [roundDownToStep] *)

Lemma roundDownToStep_guard (rawQty step : number) :
  leb step zero = true \/ leb rawQty zero = true \/ isFinite rawQty = false ->
  roundDownToStep rawQty step = zero.
Proof.
  rewrite roundDownToStep_eq. intros [H | [H | H]].
  - destruct (negb (isFinite rawQty) || leb rawQty zero); [reflexivity|].
    rewrite H, orb_true_r. reflexivity.
  - rewrite H, orb_true_r. reflexivity.
  - rewrite H. reflexivity.
Qed.

Lemma positive_step_not_zero (step : number) :
  negb (isFinite step) || leb step zero = false -> is_zero step = false.
Proof.
  destruct step as [| | |s]; simpl; try discriminate.
  intros H. destruct (Qeq_bool s 0) eqn:Ez; [|reflexivity].
  apply Qeq_bool_iff in Ez.
  assert (Hle : Qle_bool s 0 = true) by (apply Qle_bool_iff; lra).
  congruence.
Qed.

Lemma roundDownToStep_checked (rawQty step : number) :
  roundDownToStepM opt_ret opt_bind checked_div rawQty step
  = Some (roundDownToStep rawQty step).
Proof.
  unfold roundDownToStep, roundDownToStepM.
  destruct (negb (isFinite rawQty) || leb rawQty zero); [reflexivity|].
  destruct (negb (isFinite step) || leb step zero) eqn:Hs; [reflexivity|].
  unfold checked_div. rewrite (positive_step_not_zero _ Hs). reflexivity.
Qed.

(** Every division of [computeSizingFromBudget] has a non-zero divisor: the
    run that stops at a zero divisor never stops, and returns what the
    plain run returns. *)
Lemma never_divides_by_zero (input : Input.t) :
  computeSizingFromBudget_checked input = Some (computeSizingFromBudget input).
Proof.
  unfold computeSizingFromBudget_checked, computeSizingFromBudget,
    computeSizingFromBudgetM.
  destruct input as [sm b l m s mn].
  cbn [Input.markPrice Input.leverage Input.stepSize Input.minNotionalUsdt
       Input.startingMarginUsdt Input.currentMarginBudgetUsdt].
  assert (Hdiv : forall x y,
    (if gtb y zero then checked_div x y else opt_ret number zero)
    = Some (if gtb y zero then div x y else zero)).
  { intros x y. destruct (gtb y zero) eqn:Hy; [|reflexivity].
    unfold checked_div. rewrite (gtb_zero_not_is_zero _ Hy). reflexivity. }
  rewrite Hdiv. unfold opt_bind at 1.
  rewrite roundDownToStep_checked. unfold opt_bind at 1.
  rewrite Hdiv. unfold opt_bind at 1.
  destruct (gtb l zero) eqn:Hl; [|reflexivity].
  unfold checked_div. rewrite (gtb_zero_not_is_zero _ Hl). reflexivity.
Qed.

(** ** The sizing rule *)






(** A mark price that is not positive is guarded in the same way: with
    budget -100, leverage 10, mark price -30000 and minimum notional -2000
    the formula gives the quantity 0.033 and the notional [-990 >= -2000],
    and the code a quantity 0 and a block. *)
Lemma negative_mark_price_blocked :
  blockedReason (computeSizingFromBudget
                   (finite_input 100 (-100) 10 (-30000) (1 # 1000) (-2000)))
  = Some min_notional /\
  ~ (spec_qtyRounded (-100) 10 (-30000) (1 # 1000) <= 0
     \/ spec_qtyRounded (-100) 10 (-30000) (1 # 1000) * -30000 < -2000).
Proof.
  split; [reflexivity|].
  intros [H | H]; vm_compute in H;
    first [discriminate H | apply H; reflexivity].
Qed.

(** ** Margin required *)

(** C6 (amended).  [notionalUsdt] is [qtyRounded * markPrice], and
    [marginRequiredUsdt] is that notional divided by [leverage] when
    [leverage > 0] and the notional itself otherwise; for [leverage >= 1]
    this is [notional / max(leverage, 1)]. *)
Theorem marginRequired_by_leverage (input : Input.t) :
  let r := computeSizingFromBudget input in
  notionalUsdt r = mul (qtyRounded r) (Input.markPrice input) /\
  marginRequiredUsdt r =
    (if gtb (Input.leverage input) zero
     then div (notionalUsdt r) (Input.leverage input)
     else notionalUsdt r) /\
  (geb (Input.leverage input) (Fin 1) = true ->
   marginRequiredUsdt r
   = div (notionalUsdt r) (max (Input.leverage input) (Fin 1))).
Proof.
  intros r. split; [reflexivity|]. split; [reflexivity|].
  intros Hl. subst r. rewrite marginRequiredUsdt_eq.
  destruct (Input.leverage input) as [| | |l]; try discriminate.
  - reflexivity.
  - apply geb_Fin in Hl.
    assert (Hg : gtb (Fin l) zero = true) by (apply gtb_Fin; lra).
    rewrite Hg. unfold max. apply geb_Fin in Hl. rewrite Hl. reflexivity.
Qed.

Lemma marginRequired_by_leverage_witness :
  geb (Fin 10) (Fin 1) = true /\
  marginRequiredUsdt (computeSizingFromBudget
                        (finite_input 100 100 10 30000 (1 # 1000) 5))
  = div (notionalUsdt (computeSizingFromBudget
                         (finite_input 100 100 10 30000 (1 # 1000) 5)))
        (max (Fin 10) (Fin 1)).
Proof.
  split; [reflexivity|].
  pose proof (marginRequired_by_leverage
                (finite_input 100 100 10 30000 (1 # 1000) 5)) as H.
  cbv zeta in H. destruct H as [_ [_ H]]. apply H. reflexivity.
Defined.

(** C6, as stated, fails for a leverage strictly between 0 and 1: with
    budget 100, leverage 1/2, mark price 10 and step 1 the notional is 50;
    the code returns the margin [50 / (1/2) = 100], the claim
    [50 / max(1/2, 1) = 50]. *)
Lemma fractional_leverage_counterexample :
  eqb (marginRequiredUsdt
         (computeSizingFromBudget (finite_input 100 100 (1 # 2) 10 1 5)))
      (Fin 100) = true /\
  eqb (div (notionalUsdt
              (computeSizingFromBudget (finite_input 100 100 (1 # 2) 10 1 5)))
           (max (Fin (1 # 2)) (Fin 1)))
      (Fin 50) = true /\
  eqb (marginRequiredUsdt
         (computeSizingFromBudget (finite_input 100 100 (1 # 2) 10 1 5)))
      (div (notionalUsdt
              (computeSizingFromBudget (finite_input 100 100 (1 # 2) 10 1 5)))
           (max (Fin (1 # 2)) (Fin 1)))
  = false.
Proof. vm_compute. repeat split. Qed.

(** ** Totality and the guarded cases *)

Lemma guarded_notional_zero (m l : number) :
  isFinite m = true ->
  eqb (mul zero m) zero = true /\
  eqb (if gtb l zero then div (mul zero m) l else mul zero m) zero = true.
Proof.
  destruct m as [| | |m]; try discriminate. intros _.
  assert (Hz : Qeq_bool (0 * m) 0 = true) by (apply Qeq_bool_iff; lra).
  split; [exact Hz|].
  destruct l as [| | |l]; cbn [gtb zero mul]; try exact Hz; try reflexivity.
  destruct (negb (Qle_bool l 0)) eqn:El; [|exact Hz].
  rewrite negb_true_iff in El. apply Qle_bool_false in El.
  cbn [div]. rewrite (Qeq_bool_pos l El). cbn [eqb zero].
  apply Qeq_bool_iff. field. lra.
Qed.

(** C9 (amended).  [computeSizingFromBudget] returns on every input and
    divides by zero on none; if [markPrice <= 0] then [qty = 0]; if
    [stepSize <= 0] or [qty] is non-positive or non-finite then
    [qtyRounded = 0] and the sizing is blocked with ['min_notional'], and
    [notionalUsdt] and [marginRequiredUsdt] are then [0] provided
    [markPrice] is finite. *)
Theorem guarded_sizing_is_blocked (input : Input.t) :
  let r := computeSizingFromBudget input in
  computeSizingFromBudget_checked input = Some r /\
  (leb (Input.markPrice input) zero = true -> qty r = zero) /\
  (leb (Input.stepSize input) zero = true
   \/ leb (qty r) zero = true \/ isFinite (qty r) = false ->
   qtyRounded r = zero /\
   blockedReason r = Some min_notional /\
   (isFinite (Input.markPrice input) = true ->
    eqb (notionalUsdt r) zero = true /\
    eqb (marginRequiredUsdt r) zero = true)).
Proof.
  intros r. split; [apply never_divides_by_zero|]. split.
  - intros Hm. subst r. rewrite qty_eq.
    rewrite (leb_gtb_false _ _ Hm). reflexivity.
  - intros Hg.
    assert (Hq : qtyRounded r = zero).
    { subst r. rewrite qtyRounded_eq. apply roundDownToStep_guard. exact Hg. }
    split; [exact Hq|]. split.
    + subst r. rewrite blockedReason_eq, Hq. reflexivity.
    + intros Hfin. subst r.
      rewrite marginRequiredUsdt_eq, notionalUsdt_eq, Hq.
      apply guarded_notional_zero. exact Hfin.
Qed.

Lemma guarded_sizing_is_blocked_witness :
  leb (Fin 0) zero = true /\
  qty (computeSizingFromBudget (finite_input 100 100 10 0 (1 # 1000) 5)) = zero /\
  qtyRounded (computeSizingFromBudget (finite_input 100 100 10 0 (1 # 1000) 5))
  = zero /\
  blockedReason (computeSizingFromBudget (finite_input 100 100 10 0 (1 # 1000) 5))
  = Some min_notional.
Proof.
  split; [reflexivity|].
  pose proof (guarded_sizing_is_blocked
                (finite_input 100 100 10 0 (1 # 1000) 5)) as H.
  cbv zeta in H. destruct H as [_ [Hqty Hguard]].
  split; [apply Hqty; reflexivity|].
  destruct Hguard as [Hq [Hb _]]; [right; left; reflexivity|].
  split; [exact Hq | exact Hb].
Defined.

(** C9, as stated, fails on the finiteness of the result: with a mark price
    that is not a number the quantity is [0], so the sizing is one of the
    guarded cases and is blocked, but [notionalUsdt = 0 * NaN] and
    [marginRequiredUsdt] are [NaN]. *)
Lemma nan_mark_price_counterexample :
  leb (qty (computeSizingFromBudget
              (Input.mk (Fin 100) (Fin 100) (Fin 10) NaN (Fin (1 # 1000)) (Fin 5))))
      zero = true /\
  blockedReason (computeSizingFromBudget
              (Input.mk (Fin 100) (Fin 100) (Fin 10) NaN (Fin (1 # 1000)) (Fin 5)))
  = Some min_notional /\
  isFinite (notionalUsdt (computeSizingFromBudget
              (Input.mk (Fin 100) (Fin 100) (Fin 10) NaN (Fin (1 # 1000)) (Fin 5))))
  = false /\
  isFinite (marginRequiredUsdt (computeSizingFromBudget
              (Input.mk (Fin 100) (Fin 100) (Fin 10) NaN (Fin (1 # 1000)) (Fin 5))))
  = false.
Proof. vm_compute. repeat split. Qed.

End Sizing.

(* ===================================================================== *)
(** * The sizing computation over binary64 numbers *)
(* ===================================================================== *)

(** [roundDownToStep] and [computeSizingFromBudget] again, over the numbers
    the code computes with: here the quotient [rawQty / stepSize] is
    rounded before [Math.floor] sees it, and a product can overflow. *)
Module Sizing64.

Import Binary64.

Inductive BlockedReason : Type := min_notional.

Module Input.
Record t : Type := mk {
  startingMarginUsdt : number;
  currentMarginBudgetUsdt : number;
  leverage : number;
  markPrice : number;
  stepSize : number;
  minNotionalUsdt : number
}.
End Input.

Record SizingComputation : Type := mkSizingComputation {
  markPrice : number;
  startingMarginUsdt : number;
  currentMarginBudgetUsdt : number;
  rampMult : number;
  leverage : number;
  notionalUsdt : number;
  qty : number;
  qtyRounded : number;
  minNotionalOk : bool;
  marginRequiredUsdt : number;
  blockedReason : option BlockedReason
}.

Definition roundDownToStep (rawQty stepSize : number) : number :=
  if negb (isFinite rawQty) || leb rawQty zero then zero
  else if negb (isFinite stepSize) || leb stepSize zero then zero
  else
    let units := floor (div rawQty stepSize) in
    mul units stepSize.

Definition computeSizingFromBudget (input : Input.t) : SizingComputation :=
  let notional :=
    mul (Input.currentMarginBudgetUsdt input) (Input.leverage input) in
  let qty_ :=
    if gtb (Input.markPrice input) zero
    then div notional (Input.markPrice input) else zero in
  let qtyRounded_ := roundDownToStep qty_ (Input.stepSize input) in
  let computedNotional := mul qtyRounded_ (Input.markPrice input) in
  let minNotionalOk_ := geb computedNotional (Input.minNotionalUsdt input) in
  let blockedReason_ :=
    if leb qtyRounded_ zero || negb minNotionalOk_
    then Some min_notional else None in
  {| markPrice := Input.markPrice input;
     startingMarginUsdt := Input.startingMarginUsdt input;
     currentMarginBudgetUsdt := Input.currentMarginBudgetUsdt input;
     rampMult := if gtb (Input.startingMarginUsdt input) zero
                 then div (Input.currentMarginBudgetUsdt input)
                          (Input.startingMarginUsdt input)
                 else zero;
     leverage := Input.leverage input;
     notionalUsdt := computedNotional;
     qty := qty_;
     qtyRounded := qtyRounded_;
     minNotionalOk := minNotionalOk_;
     marginRequiredUsdt := if gtb (Input.leverage input) zero
                           then div computedNotional (Input.leverage input)
                           else computedNotional;
     blockedReason := blockedReason_ |}.

(** The number a decimal literal [n / 10^k] denotes. *)
Definition decimal (n : Z) (k : nat) : number :=
  div (of_Z n) (of_Z (10 ^ Z.of_nat k)).

(** Zero, a positive number or [Infinity]: neither [NaN] nor below zero,
    nor the negative zero. *)
Definition nonnegative (x : number) : Prop :=
  match x with
  | SpecFloat.S754_zero false
  | SpecFloat.S754_finite false _ _
  | SpecFloat.S754_infinity false => True
  | _ => False
  end.

(** ** What rounding does to a quantity *)

(** The quotient [0.29 / 0.01] is rounded to [28.999999999999996], of
    which [Math.floor] makes 28: [0.299] rounds down to [0.29], and
    [0.29] to [0.28]. *)
Example rounding_twice_example :
  roundDownToStep (decimal 299 3) (decimal 1 2) = decimal 29 2 /\
  roundDownToStep (decimal 29 2) (decimal 1 2) = decimal 28 2 /\
  ltb (decimal 28 2) (decimal 29 2) = true.
Proof. vm_compute. repeat split. Qed.

(** The product [300 * 0.0001] is rounded up: [0.03] "rounds down" to
    [0.030000000000000002]. *)
Example rounding_up_example :
  ltb (decimal 3 2) (roundDownToStep (decimal 3 2) (decimal 1 4)) = true.
Proof. vm_compute. reflexivity. Qed.

(** With budget 1e308, leverage 1, mark price 1 and step 0.1, all finite
    and past every guard, the quotient [1e308 / 0.1] overflows: the
    quantity, the notional and the margin are [Infinity] and the sizing is
    not blocked. *)
Example overflowing_quantity_example :
  let r := computeSizingFromBudget
             (Input.mk (of_Z 100) (of_Z (10 ^ 308)) one one (decimal 1 1)
                       (of_Z 5)) in
  isFinite (qty r) = true /\
  qtyRounded r = SpecFloat.S754_infinity false /\
  notionalUsdt r = SpecFloat.S754_infinity false /\
  marginRequiredUsdt r = SpecFloat.S754_infinity false /\
  blockedReason r = None.
Proof. vm_compute. repeat split. Qed.

(** ** The sign of a rounded quantity *)

Lemma binary_round_aux_sign (sx : bool) (mx ex : Z) (lx : SpecFloat.location) :
  (0 <= mx)%Z ->
  match SpecFloat.binary_round_aux prec emax sx mx ex lx with
  | SpecFloat.S754_zero s | SpecFloat.S754_infinity s
  | SpecFloat.S754_finite s _ _ => s = sx
  | SpecFloat.S754_nan => False
  end.
Proof.
  intros H. unfold SpecFloat.binary_round_aux.
  pose proof (shr_fexp_nonneg mx ex lx H) as H1.
  destruct (SpecFloat.shr_fexp prec emax mx ex lx) as [mrs' e'].
  cbn [fst] in H1.
  pose proof (shr_fexp_nonneg
                (SpecFloat.round_nearest_even (SpecFloat.shr_m mrs')
                   (SpecFloat.loc_of_shr_record mrs'))
                e' SpecFloat.loc_Exact
                (round_nearest_even_nonneg _ _ H1)) as H2.
  destruct (SpecFloat.shr_fexp prec emax
              (SpecFloat.round_nearest_even (SpecFloat.shr_m mrs')
                 (SpecFloat.loc_of_shr_record mrs'))
              e' SpecFloat.loc_Exact) as [mrs'' e''].
  cbn [fst] in H2.
  destruct (SpecFloat.shr_m mrs'') as [|p|p]; [reflexivity| |lia].
  destruct (e'' <=? emax - prec)%Z; reflexivity.
Qed.

Lemma binary_round_aux_nonnegative (mx ex : Z) (lx : SpecFloat.location) :
  (0 <= mx)%Z ->
  nonnegative (SpecFloat.binary_round_aux prec emax false mx ex lx).
Proof.
  intros H. pose proof (binary_round_aux_sign false mx ex lx H) as Hs.
  unfold nonnegative.
  destruct (SpecFloat.binary_round_aux prec emax false mx ex lx) as [s|s| |s m e];
    try contradiction; subst s; exact I.
Qed.

Lemma of_Z_positive (p : positive) : nonnegative (of_Z (Zpos p)).
Proof.
  unfold of_Z, SpecFloat.binary_normalize, SpecFloat.binary_round.
  destruct (SpecFloat.shl_align p 0
              (SpecFloat.fexp prec emax (Z.pos (SpecFloat.digits2_pos p) + 0)))
    as [mz ez].
  apply binary_round_aux_nonnegative. lia.
Qed.

Lemma div_positive (mx my : positive) (ex ey : Z) :
  nonnegative (div (SpecFloat.S754_finite false mx ex)
                   (SpecFloat.S754_finite false my ey)).
Proof.
  unfold div, SpecFloat.SFdiv, SpecFloat.SFdiv_core_binary. cbn [xorb].
  set (m' := match (ex - ey - _)%Z with
             | Z0 => Z.pos mx
             | Zpos _ => Z.shiftl (Z.pos mx) _
             | Zneg _ => 0%Z
             end).
  assert (Hm' : (0 <= m')%Z).
  { subst m'.
    destruct (ex - ey -
              Z.min (SpecFloat.fexp prec emax
                       (SpecFloat.Zdigits2 (Z.pos mx) + ex
                        - (SpecFloat.Zdigits2 (Z.pos my) + ey)))
                    (ex - ey))%Z; try lia.
    apply Z.shiftl_nonneg. lia. }
  pose proof (Z.div_pos m' (Z.pos my) Hm' ltac:(lia)) as Hq.
  unfold Z.div in Hq.
  destruct (Z.div_eucl m' (Z.pos my)) as [q r].
  apply binary_round_aux_nonnegative. exact Hq.
Qed.

Lemma floor_nonnegative (x : number) : nonnegative x -> nonnegative (floor x).
Proof.
  destruct x as [s|s| |s m e]; try contradiction;
    destruct s; try contradiction; intros _; try exact I.
  unfold floor. destruct (0 <=? e)%Z; [exact I|].
  pose proof (Z.div_pos (Z.pos m) (2 ^ (- e))%Z ltac:(lia)) as Hq.
  destruct (Z.pos m / 2 ^ (- e))%Z as [|p|p] eqn:E.
  - exact I.
  - apply of_Z_positive.
  - exfalso.
    assert (Hpow : (0 < 2 ^ (- e))%Z \/ (2 ^ (- e) = 0)%Z).
    { pose proof (Z.pow_nonneg 2 (- e) ltac:(lia)). lia. }
    destruct Hpow as [Hpow | Hpow].
    + specialize (Hq Hpow). lia.
    + rewrite Hpow, Z.div_0_r in E. discriminate E.
Qed.

Lemma mul_nonnegative (u : number) (m : positive) (e : Z) :
  nonnegative u -> nonnegative (mul u (SpecFloat.S754_finite false m e)).
Proof.
  destruct u as [s|s| |s mu eu]; try contradiction;
    destruct s; try contradiction; intros _; try exact I.
  unfold mul, SpecFloat.SFmul. cbn [xorb].
  apply binary_round_aux_nonnegative. lia.
Qed.

(** X25.  Whatever its arguments, [NaN] and the infinities included,
    [roundDownToStep] returns neither [NaN], nor a number below zero, nor
    the negative zero: its result is 0, a positive number or, when the
    quotient or the product overflows, [Infinity]. *)
Theorem roundDownToStep_nonnegative (rawQty stepSize : number) :
  nonnegative (roundDownToStep rawQty stepSize) /\
  isNaN (roundDownToStep rawQty stepSize) = false /\
  geb (roundDownToStep rawQty stepSize) zero = true.
Proof.
  assert (H : nonnegative (roundDownToStep rawQty stepSize)).
  { unfold roundDownToStep.
    destruct (negb (isFinite rawQty) || leb rawQty zero) eqn:Hq; [exact I|].
    destruct (negb (isFinite stepSize) || leb stepSize zero) eqn:Hs; [exact I|].
    apply orb_false_iff in Hq. destruct Hq as [Hfq Hq].
    apply orb_false_iff in Hs. destruct Hs as [Hfs Hs].
    destruct rawQty as [sq|sq| |sq mq xq]; try discriminate;
      destruct sq; try discriminate.
    destruct stepSize as [ss|ss| |ss ms es]; try discriminate;
      destruct ss; try discriminate.
    cbv zeta. apply mul_nonnegative, floor_nonnegative, div_positive. }
  split; [exact H|].
  destruct (roundDownToStep rawQty stepSize) as [s|s| |s m e];
    try contradiction; destruct s; try contradiction; split; reflexivity.
Qed.

End Sizing64.

(* ===================================================================== *)
(** * SizingRamp: the adaptive margin budget *)
(* ===================================================================== *)

(** The ramp over exact rationals: the direction of a step, the
    saturation at a bound and the counters do not depend on rounding.  The
    bounds themselves, which an overflowing product or a [NaN] breaks, are
    settled over binary64 numbers in [SizingRamp64] below. *)
Module SizingRamp.

#[local] Open Scope Q_scope.

Record SizingRampConfig : Type := mkConfig {
  startingMarginUsdt : Q;
  minMarginUsdt : Q;
  rampStepPct : Q;
  rampDecayPct : Q;
  rampMaxMult : Q
}.

Record SizingRampState : Type := mkState {
  currentMarginBudgetUsdt : Q;
  rampMult : Q;
  successCount : nat;
  failCount : nat
}.

Record RampBounds : Type := mkBounds { min : Q; max : Q }.

Definition computeRampBounds (config : SizingRampConfig) : RampBounds :=
  let min_ := Qmax 0 (minMarginUsdt config) in
  let max_ := Qmax min_ (startingMarginUsdt config * Qmax 1 (rampMaxMult config)) in
  {| min := min_; max := max_ |}.

(** The object: its private [config] and [state]. *)
Record t : Type := mk { config : SizingRampConfig; state : SizingRampState }.

(** [x > 0] on numbers. *)
Definition positive (x : Q) : bool := negb (Qle_bool x 0).

Definition new (config : SizingRampConfig) : t :=
  {| config := config;
     state := {| currentMarginBudgetUsdt := Qmax 0 (startingMarginUsdt config);
                 rampMult := 1;
                 successCount := 0;
                 failCount := 0 |} |}.

Definition getState (r : t) : SizingRampState := state r.

Definition getCurrentMarginBudgetUsdt (r : t) : Q :=
  currentMarginBudgetUsdt (state r).

Definition clamp (r : t) (value : Q) : Q :=
  let b := computeRampBounds (config r) in
  Qmax (min b) (Qmin (max b) value).

Definition rampMult_of (config : SizingRampConfig) (budget : Q) : Q :=
  if positive (startingMarginUsdt config)
  then budget / startingMarginUsdt config
  else 0.

(** [onTradeClosed]: the object after the call and the state it returns. *)
Definition onTradeClosed (realizedPnl : Q) (r : t) : t * SizingRampState :=
  let st := state r in
  let st1 :=
    if positive realizedPnl then
      {| currentMarginBudgetUsdt :=
           clamp r (currentMarginBudgetUsdt st * (1 + rampStepPct (config r) / 100));
         rampMult := rampMult st;
         successCount := S (successCount st);
         failCount := failCount st |}
    else
      {| currentMarginBudgetUsdt :=
           clamp r (currentMarginBudgetUsdt st * (1 - rampDecayPct (config r) / 100));
         rampMult := rampMult st;
         successCount := successCount st;
         failCount := S (failCount st) |} in
  let st2 :=
    {| currentMarginBudgetUsdt := currentMarginBudgetUsdt st1;
       rampMult := rampMult_of (config r) (currentMarginBudgetUsdt st1);
       successCount := successCount st1;
       failCount := failCount st1 |} in
  ({| config := config r; state := st2 |}, getState {| config := config r; state := st2 |}).

(** The object after a sequence of closed trades. *)
Definition run (r : t) (pnls : list Q) : t :=
  fold_left (fun acc pnl => fst (onTradeClosed pnl acc)) pnls r.

(** The budget lies between the bounds of the configuration. *)
Definition within_bounds (config : SizingRampConfig) (budget : Q) : Prop :=
  Qmax 0 (minMarginUsdt config) <= budget /\
  budget <= Qmax (Qmax 0 (minMarginUsdt config))
                 (startingMarginUsdt config * Qmax 1 (rampMaxMult config)).

(** The closed trades of [pnls] with a positive realized P&L. *)
Definition wins (pnls : list Q) : nat := length (List.filter positive pnls).

(** The closed trades of [pnls] with a realized P&L that is not positive. *)
Definition losses (pnls : list Q) : nat :=
  length (List.filter (fun pnl => negb (positive pnl)) pnls).



Lemma onTradeClosed_config (pnl : Q) (r : t) :
  config (fst (onTradeClosed pnl r)) = config r.
Proof. reflexivity. Qed.

Lemma run_config (pnls : list Q) (r : t) : config (run r pnls) = config r.
Proof.
  unfold run. revert r. induction pnls as [|p ps IH]; intros r; [reflexivity|].
  simpl. rewrite IH. apply onTradeClosed_config.
Qed.


Lemma onTradeClosed_returns_state (pnl : Q) (r : t) :
  snd (onTradeClosed pnl r) = state (fst (onTradeClosed pnl r)).
Proof. reflexivity. Qed.

(** Scenario S5 of the specification, as the code runs it: starting 100,
    minimum 10, multiplier 2, step and decay 50 percent; three wins, one loss. *)
Example ramp_clamp_scenario :
  let cfg := mkConfig 100 10 50 50 2 in
  map (fun pnls => Qred (getCurrentMarginBudgetUsdt (run (new cfg) pnls)))
      [[1]; [1; 1]; [1; 1; 1]; [1; 1; 1; -1]]
  = [150; 200; 200; 100].
Proof. vm_compute. reflexivity. Qed.

(** ** The direction of a step of the ramp *)


Lemma clamp_fixes_fitting (r : t) (value : Q) :
  within_bounds (config r) value -> clamp r value == value.
Proof.
  unfold within_bounds, clamp, computeRampBounds; simpl. intros [Hlo Hhi].
  rewrite (Q.min_r _ _ Hhi). apply Q.max_r. exact Hlo.
Qed.









(** ** The counters *)

Lemma run_counters (pnls : list Q) (r : t) :
  successCount (state (run r pnls)) = (successCount (state r) + wins pnls)%nat /\
  failCount (state (run r pnls)) = (failCount (state r) + losses pnls)%nat.
Proof.
  unfold run, wins, losses. revert r.
  induction pnls as [|pnl pnls IH]; intros r.
  - simpl. split; lia.
  - cbn [fold_left List.filter].
    destruct (IH (fst (onTradeClosed pnl r))) as [Hs Hf].
    rewrite Hs, Hf. unfold onTradeClosed; cbn [fst state successCount failCount].
    destruct (positive pnl); cbn [negb length successCount failCount]; split; lia.
Qed.

(** X6.  After any sequence of [onTradeClosed] calls on a new ramp,
    [successCount] is the number of calls with a positive P&L,
    [failCount] the number of the other calls, and they add up to the
    number of calls. *)
Theorem counters_count_closed_trades (cfg : SizingRampConfig) (pnls : list Q) :
  successCount (state (run (new cfg) pnls)) = wins pnls /\
  failCount (state (run (new cfg) pnls)) = losses pnls /\
  (successCount (state (run (new cfg) pnls))
   + failCount (state (run (new cfg) pnls)) = length pnls)%nat.
Proof.
  destruct (run_counters pnls (new cfg)) as [Hs Hf]. simpl in Hs, Hf.
  split; [exact Hs|]. split; [exact Hf|]. rewrite Hs, Hf.
  unfold wins, losses. clear.
  induction pnls as [|pnl pnls IH]; [reflexivity|]. simpl.
  destruct (positive pnl); simpl; lia.
Qed.

End SizingRamp.

(* ===================================================================== *)
(** * The sizing ramp over binary64 numbers *)
(* ===================================================================== *)

(** [computeRampBounds] and the class [SizingRamp] again, this time over
    the numbers the code computes with.  Whether the budget stays within
    its bounds is decided by what an overflowing product and a [NaN] do to
    [Math.max] and [Math.min]. *)
Module SizingRamp64.

Import Binary64.

Record SizingRampConfig : Type := mkConfig {
  startingMarginUsdt : number;
  minMarginUsdt : number;
  rampStepPct : number;
  rampDecayPct : number;
  rampMaxMult : number
}.

Record SizingRampState : Type := mkState {
  currentMarginBudgetUsdt : number;
  rampMult : number;
  successCount : nat;
  failCount : nat
}.

Record RampBounds : Type := mkBounds { min : number; max : number }.

Definition computeRampBounds (config : SizingRampConfig) : RampBounds :=
  let min_ := Math_max zero (minMarginUsdt config) in
  let max_ :=
    Math_max min_ (mul (startingMarginUsdt config)
                       (Math_max one (rampMaxMult config))) in
  {| min := min_; max := max_ |}.

Record t : Type := mk { config : SizingRampConfig; state : SizingRampState }.

(** The constructor. *)
Definition new (config : SizingRampConfig) : t :=
  {| config := config;
     state := {| currentMarginBudgetUsdt :=
                   Math_max zero (startingMarginUsdt config);
                 rampMult := one;
                 successCount := 0;
                 failCount := 0 |} |}.

Definition getState (r : t) : SizingRampState := state r.

Definition getCurrentMarginBudgetUsdt (r : t) : number :=
  currentMarginBudgetUsdt (state r).

Definition clamp (r : t) (value : number) : number :=
  let bounds := computeRampBounds (config r) in
  Math_max (min bounds) (Math_min (max bounds) value).

(** The factors [1 + rampStepPct / 100] and [1 - rampDecayPct / 100]. *)
Definition stepFactor (config : SizingRampConfig) : number :=
  add one (div (rampStepPct config) hundred).

Definition decayFactor (config : SizingRampConfig) : number :=
  sub one (div (rampDecayPct config) hundred).

Definition onTradeClosed (realizedPnl : number) (r : t) : t * SizingRampState :=
  let s := state r in
  let won := gtb realizedPnl zero in
  let budget :=
    if won
    then clamp r (mul (currentMarginBudgetUsdt s) (stepFactor (config r)))
    else clamp r (mul (currentMarginBudgetUsdt s) (decayFactor (config r))) in
  let s' :=
    {| currentMarginBudgetUsdt := budget;
       rampMult := if gtb (startingMarginUsdt (config r)) zero
                   then div budget (startingMarginUsdt (config r))
                   else zero;
       successCount := if won then S (successCount s) else successCount s;
       failCount := if won then failCount s else S (failCount s) |} in
  ({| config := config r; state := s' |}, s').

Definition run (r : t) (pnls : list number) : t :=
  fold_left (fun acc pnl => (onTradeClosed pnl acc).1) pnls r.

(** [min <= budget <= max] for the bounds of the configuration. *)
Definition within_bounds (config : SizingRampConfig) (budget : number) : Prop :=
  leb (min (computeRampBounds config)) budget = true /\
  leb budget (max (computeRampBounds config)) = true.

(** A field of a [Partial<SizingRampConfig>]: the key is absent, or it is
    present with a number, or present with [undefined], which the type
    allows. *)
Inductive PartialField : Type :=
  | Absent
  | Undefined
  | Present (value : number).

Record PartialConfig : Type := mkPartial {
  p_startingMarginUsdt : PartialField;
  p_minMarginUsdt : PartialField;
  p_rampStepPct : PartialField;
  p_rampDecayPct : PartialField;
  p_rampMaxMult : PartialField
}.

(** What the spread [{...config, ...next}] leaves in a field.  The fields
    of the configuration are read by arithmetic, by [Math.max] and by [>]
    only, and each of them converts [undefined] to [NaN]. *)
Definition spread (current : number) (next : PartialField) : number :=
  match next with
  | Absent => current
  | Undefined => NaN
  | Present value => value
  end.

Definition merge (config : SizingRampConfig) (next : PartialConfig)
  : SizingRampConfig :=
  {| startingMarginUsdt := spread (startingMarginUsdt config) (p_startingMarginUsdt next);
     minMarginUsdt := spread (minMarginUsdt config) (p_minMarginUsdt next);
     rampStepPct := spread (rampStepPct config) (p_rampStepPct next);
     rampDecayPct := spread (rampDecayPct config) (p_rampDecayPct next);
     rampMaxMult := spread (rampMaxMult config) (p_rampMaxMult next) |}.

Definition updateConfig (next : PartialConfig) (r : t) : t :=
  let r1 := {| config := merge (config r) next; state := state r |} in
  let budget := clamp r1 (currentMarginBudgetUsdt (state r1)) in
  {| config := config r1;
     state := {| currentMarginBudgetUsdt := budget;
                 rampMult := if gtb (startingMarginUsdt (config r1)) zero
                             then div budget (startingMarginUsdt (config r1))
                             else zero;
                 successCount := successCount (state r1);
                 failCount := failCount (state r1) |} |}.

(** Scenario S5: starting margin 100, minimum 10, step and decay 50 %,
    multiplier at most 2. *)
Definition scenario_config : SizingRampConfig :=
  {| startingMarginUsdt := of_Z 100; minMarginUsdt := of_Z 10;
     rampStepPct := of_Z 50; rampDecayPct := of_Z 50; rampMaxMult := of_Z 2 |}.

(** A starting margin of 1e308 with a multiplier of 10: the upper bound
    overflows. *)
Definition overflowing_config : SizingRampConfig :=
  {| startingMarginUsdt := of_Z (10 ^ 308); minMarginUsdt := zero;
     rampStepPct := of_Z 100; rampDecayPct := of_Z 100;
     rampMaxMult := of_Z 10 |}.

(** Step percentage [Infinity]: the factor of a win is [Infinity]. *)
Definition infinite_step_config : SizingRampConfig :=
  {| startingMarginUsdt := zero; minMarginUsdt := zero;
     rampStepPct := SpecFloat.S754_infinity false; rampDecayPct := of_Z 50;
     rampMaxMult := of_Z 2 |}.

(** ** The bounds of a configuration *)

Lemma Math_max_infinity (x : number) :
  isNaN x = false ->
  Math_max x (SpecFloat.S754_infinity false) = SpecFloat.S754_infinity false.
Proof.
  destruct x as [s|s| |s m e]; try discriminate; intros _;
    try reflexivity; destruct s; reflexivity.
Qed.

(** [Math.max(1, x)] is 1 or a number above 1, which is positive. *)
Lemma Math_max_one (x : number) :
  isNaN x = false ->
  Math_max one x = one \/
  Math_max one x = SpecFloat.S754_infinity false \/
  exists m e, Math_max one x = SpecFloat.S754_finite false m e.
Proof.
  intros Hx. destruct (Math_max_spec one x eq_refl Hx) as [[E | E] [Hle _]].
  - left. exact E.
  - rewrite E in Hle |- *. clear E.
    destruct x as [s|s| |s m e]; try discriminate Hx.
    + cbv in Hle. discriminate Hle.
    + destruct s; [cbv in Hle; discriminate Hle | right; left; reflexivity].
    + destruct s; [cbv in Hle; discriminate Hle|].
      right. right. exists m, e. reflexivity.
Qed.

Lemma finite_upper_bound (cfg : SizingRampConfig) :
  isFinite (max (computeRampBounds cfg)) = true ->
  isNaN (minMarginUsdt cfg) = false /\
  isNaN (mul (startingMarginUsdt cfg) (Math_max one (rampMaxMult cfg))) = false /\
  leb zero (min (computeRampBounds cfg)) = true /\
  leb (min (computeRampBounds cfg)) (max (computeRampBounds cfg)) = true /\
  isFinite (min (computeRampBounds cfg)) = true.
Proof.
  unfold computeRampBounds. cbn [min max]. intros Hfin.
  set (lo := Math_max zero (minMarginUsdt cfg)) in *.
  set (p := mul (startingMarginUsdt cfg) (Math_max one (rampMaxMult cfg))) in *.
  assert (Hnan : isNaN (Math_max lo p) = false)
    by (destruct (Math_max lo p); try discriminate; reflexivity).
  rewrite Math_max_nan in Hnan. apply orb_false_iff in Hnan.
  destruct Hnan as [Hlo Hp].
  assert (Hmm : isNaN (minMarginUsdt cfg) = false).
  { unfold lo in Hlo. rewrite Math_max_nan in Hlo.
    apply orb_false_iff in Hlo. exact (proj2 Hlo). }
  destruct (Math_max_spec zero (minMarginUsdt cfg) eq_refl Hmm) as [_ [Hzero _]].
  destruct (Math_max_spec lo p Hlo Hp) as [_ [Hord _]].
  fold lo in Hzero.
  repeat split; try assumption.
  exact (between_finite zero lo (Math_max lo p) Hzero Hord eq_refl Hfin).
Qed.

(** The budget the constructor sets is finite when the upper bound is. *)
Lemma initial_budget_finite (cfg : SizingRampConfig) :
  isFinite (max (computeRampBounds cfg)) = true ->
  isFinite (getCurrentMarginBudgetUsdt (new cfg)) = true.
Proof.
  intros Hfin.
  destruct (finite_upper_bound cfg Hfin) as (_ & Hp & _ & _ & Hlo).
  assert (Hlo' : isNaN (min (computeRampBounds cfg)) = false)
    by (destruct (min (computeRampBounds cfg)); try discriminate; reflexivity).
  unfold getCurrentMarginBudgetUsdt, new. cbn [state currentMarginBudgetUsdt].
  destruct (startingMarginUsdt cfg) as [s|s| |s m e] eqn:Es.
  - destruct s; reflexivity.
  - destruct s; [reflexivity|]. exfalso.
    assert (Hmult : isNaN (rampMaxMult cfg) = false).
    { destruct (rampMaxMult cfg); try reflexivity. discriminate Hp. }
    assert (Hprod : mul (SpecFloat.S754_infinity false)
                        (Math_max one (rampMaxMult cfg))
                    = SpecFloat.S754_infinity false).
    { destruct (Math_max_one _ Hmult) as [E | [E | [m [e E]]]];
        rewrite E; reflexivity. }
    unfold computeRampBounds in Hfin. cbn [max] in Hfin.
    rewrite Es, Hprod in Hfin.
    unfold computeRampBounds in Hlo'. cbn [min] in Hlo'.
    rewrite (Math_max_infinity _ Hlo') in Hfin. discriminate Hfin.
  - discriminate Hp.
  - destruct (Math_max_spec zero (SpecFloat.S754_finite s m e) eq_refl eq_refl)
      as [[E | E] _]; rewrite E; reflexivity.
Qed.

(** ** Clamping *)

Lemma clamp_lands_within (r : t) (value : number) :
  isFinite (max (computeRampBounds (config r))) = true ->
  isNaN value = false ->
  within_bounds (config r) (clamp r value).
Proof.
  intros Hfin Hv.
  destruct (finite_upper_bound (config r) Hfin) as (_ & _ & _ & Hord & Hlo).
  set (lo := min (computeRampBounds (config r))) in *.
  set (hi := max (computeRampBounds (config r))) in *.
  assert (Hlo' : isNaN lo = false)
    by (destruct lo; try discriminate; reflexivity).
  assert (Hhi' : isNaN hi = false)
    by (destruct hi; try discriminate; reflexivity).
  unfold within_bounds, clamp. cbv zeta. fold lo hi.
  destruct (Math_min_spec hi value Hhi' Hv) as [Hsel [Hle _]].
  assert (Hm : isNaN (Math_min hi value) = false)
    by (rewrite Math_min_nan, Hhi', Hv; reflexivity).
  destruct (Math_max_spec lo (Math_min hi value) Hlo' Hm) as [[E | E] [Hge _]].
  - split; [exact Hge|]. rewrite E. exact Hord.
  - split; [exact Hge|]. rewrite E. exact Hle.
Qed.

Lemma within_finite_bounds_finite (cfg : SizingRampConfig) (budget : number) :
  isFinite (max (computeRampBounds cfg)) = true ->
  within_bounds cfg budget -> isFinite budget = true.
Proof.
  intros Hfin [Hlo Hhi].
  destruct (finite_upper_bound cfg Hfin) as (_ & _ & _ & _ & Hmin).
  exact (between_finite _ _ _ Hlo Hhi Hmin Hfin).
Qed.

Lemma onTradeClosed_keeps_config (pnl : number) (r : t) :
  config (onTradeClosed pnl r).1 = config r.
Proof. reflexivity. Qed.

Lemma closed_budget_within (pnl : number) (r : t) :
  isFinite (max (computeRampBounds (config r))) = true ->
  isFinite (stepFactor (config r)) = true ->
  isFinite (decayFactor (config r)) = true ->
  isFinite (getCurrentMarginBudgetUsdt r) = true ->
  within_bounds (config r) (getCurrentMarginBudgetUsdt (onTradeClosed pnl r).1).
Proof.
  intros Hfin Hstep Hdecay Hb.
  unfold onTradeClosed, getCurrentMarginBudgetUsdt in *.
  cbn [fst state currentMarginBudgetUsdt].
  destruct (gtb pnl zero); apply clamp_lands_within; try exact Hfin;
    apply mul_finite_not_nan; assumption.
Qed.

Lemma run_budget_finite (cfg : SizingRampConfig) (pnls : list number) (r : t) :
  config r = cfg ->
  isFinite (max (computeRampBounds cfg)) = true ->
  isFinite (stepFactor cfg) = true ->
  isFinite (decayFactor cfg) = true ->
  isFinite (getCurrentMarginBudgetUsdt r) = true ->
  config (run r pnls) = cfg /\
  isFinite (getCurrentMarginBudgetUsdt (run r pnls)) = true.
Proof.
  intros Hcfg Hfin Hstep Hdecay. unfold run. revert r Hcfg.
  induction pnls as [|pnl pnls IH]; intros r Hcfg Hb; [split; assumption|].
  cbn [fold_left]. apply IH.
  - rewrite onTradeClosed_keeps_config. exact Hcfg.
  - apply (within_finite_bounds_finite cfg); [exact Hfin|].
    rewrite <- Hcfg. apply closed_budget_within; rewrite ?Hcfg; assumption.
Qed.

(** C2 (amended).  For every configuration whose upper bound
    [max(max(0, minMargin), startingMargin * max(1, rampMaxMult))] is
    finite and whose factors [1 + rampStepPct / 100] and
    [1 - rampDecayPct / 100] are finite, and every finite sequence of
    [onTradeClosed] calls with arbitrary realized P&L ([NaN] and the
    infinities included), after each call the margin budget [b], in the
    object and in the state the call returns, satisfies
    [max(0, minMargin) <= b <= max(max(0, minMargin),
    startingMargin * max(1, rampMaxMult))]. *)
Theorem budget_within_finite_bounds
    (cfg : SizingRampConfig) (pnls : list number) (pnl : number) :
  isFinite (max (computeRampBounds cfg)) = true ->
  isFinite (stepFactor cfg) = true ->
  isFinite (decayFactor cfg) = true ->
  let after := onTradeClosed pnl (run (new cfg) pnls) in
  within_bounds cfg (getCurrentMarginBudgetUsdt after.1) /\
  within_bounds cfg (currentMarginBudgetUsdt after.2).
Proof.
  intros Hfin Hstep Hdecay after.
  destruct (run_budget_finite cfg pnls (new cfg) eq_refl Hfin Hstep Hdecay
              (initial_budget_finite cfg Hfin)) as [Hcfg Hb].
  assert (H : within_bounds cfg (getCurrentMarginBudgetUsdt after.1)).
  { unfold after. rewrite <- Hcfg at 1.
    apply closed_budget_within; rewrite ?Hcfg; assumption. }
  split; exact H.
Qed.

Lemma budget_within_finite_bounds_witness :
  let after := onTradeClosed (of_Z (-1))
                 (run (new scenario_config) [of_Z 1; of_Z 1; of_Z 1]) in
  within_bounds scenario_config (getCurrentMarginBudgetUsdt after.1) /\
  within_bounds scenario_config (currentMarginBudgetUsdt after.2).
Proof.
  apply (budget_within_finite_bounds scenario_config
           [of_Z 1; of_Z 1; of_Z 1] (of_Z (-1))); reflexivity.
Defined.

(** C2, as stated, fails for a configuration of finite numbers whose upper
    bound overflows: starting margin 1e308, minimum 0, step and decay
    100 %, multiplier 10.  The upper bound [1e308 * 10] is [Infinity]; a
    win takes the budget to [1e308 * 2 = Infinity], which the clamp
    keeps, and the loss after it to [Infinity * (1 - 100 / 100) =
    Infinity * 0], which is [NaN]: [Math.min] and [Math.max] return
    [NaN], and the budget is within no bounds. *)
Lemma overflowing_bound_counterexample :
  let r := run (new overflowing_config) [of_Z 1; of_Z (-1)] in
  isFinite (startingMarginUsdt overflowing_config) = true /\
  isNaN (getCurrentMarginBudgetUsdt r) = true /\
  ~ within_bounds overflowing_config (getCurrentMarginBudgetUsdt r).
Proof.
  cbv zeta. split; [reflexivity|]. split; [vm_compute; reflexivity|].
  intros [H _]. vm_compute in H. discriminate H.
Qed.

(** Scenario S5 as the code runs it: three wins take the budget to 150,
    200 and 200, the loss after them to 100. *)
Example ramp_clamp_scenario_binary64 :
  map (fun pnls => getCurrentMarginBudgetUsdt (run (new scenario_config) pnls))
      [[of_Z 1]; [of_Z 1; of_Z 1]; [of_Z 1; of_Z 1; of_Z 1];
       [of_Z 1; of_Z 1; of_Z 1; of_Z (-1)]]
  = [of_Z 150; of_Z 200; of_Z 200; of_Z 100].
Proof. vm_compute. reflexivity. Qed.

(** The bounds of a configuration can be finite while a factor is not:
    with starting margin 0 and step percentage [Infinity] the bounds are
    both 0, and a win takes the budget to [0 * Infinity], which is [NaN]. *)
Example infinite_factor_example :
  let r := run (new infinite_step_config) [of_Z 1] in
  max (computeRampBounds infinite_step_config) = zero /\
  isFinite (stepFactor infinite_step_config) = false /\
  isNaN (getCurrentMarginBudgetUsdt r) = true.
Proof. vm_compute. repeat split. Qed.

(** ** A budget that is [NaN] *)

Lemma clamp_nan (r : t) (value : number) :
  isNaN value = true -> isNaN (clamp r value) = true.
Proof.
  intros H. unfold clamp. cbv zeta.
  rewrite Math_max_nan, Math_min_nan, H, !orb_true_r. reflexivity.
Qed.

Lemma mul_nan (x y : number) : isNaN x = true -> isNaN (mul x y) = true.
Proof. destruct x; try discriminate. intros _. reflexivity. Qed.

Lemma onTradeClosed_keeps_nan (pnl : number) (r : t) :
  isNaN (getCurrentMarginBudgetUsdt r) = true ->
  isNaN (getCurrentMarginBudgetUsdt (onTradeClosed pnl r).1) = true.
Proof.
  intros H. unfold onTradeClosed, getCurrentMarginBudgetUsdt in *.
  cbn [fst state currentMarginBudgetUsdt].
  destruct (gtb pnl zero); apply clamp_nan, mul_nan, H.
Qed.

(** X26.  A budget that has become [NaN] stays [NaN]: neither a sequence
    of [onTradeClosed] calls, whatever the realized P&L, nor an
    [updateConfig], whatever configuration it installs, brings it back to a
    number. *)
Theorem nan_budget_is_kept (r : t) :
  isNaN (getCurrentMarginBudgetUsdt r) = true ->
  (forall pnls : list number,
     isNaN (getCurrentMarginBudgetUsdt (run r pnls)) = true) /\
  (forall next : PartialConfig,
     isNaN (getCurrentMarginBudgetUsdt (updateConfig next r)) = true).
Proof.
  intros H. split.
  - intros pnls. unfold run. revert r H.
    induction pnls as [|pnl pnls IH]; intros r H; [exact H|].
    cbn [fold_left]. apply IH, onTradeClosed_keeps_nan, H.
  - intros next.
    exact (clamp_nan {| config := merge (config r) next; state := state r |}
                     (getCurrentMarginBudgetUsdt r) H).
Qed.

Lemma nan_budget_is_kept_witness :
  let r := run (new overflowing_config) [of_Z 1; of_Z (-1)] in
  let repaired :=
    mkPartial (Present (of_Z 100)) (Present (of_Z 10)) (Present (of_Z 50))
              (Present (of_Z 50)) (Present (of_Z 2)) in
  isNaN (getCurrentMarginBudgetUsdt r) = true /\
  isNaN (getCurrentMarginBudgetUsdt (run r [of_Z 1; of_Z 1])) = true /\
  config (updateConfig repaired r) = scenario_config /\
  isNaN (getCurrentMarginBudgetUsdt (updateConfig repaired r)) = true.
Proof.
  cbv zeta.
  assert (H : isNaN (getCurrentMarginBudgetUsdt
                       (run (new overflowing_config) [of_Z 1; of_Z (-1)]))
              = true) by (vm_compute; reflexivity).
  destruct (nan_budget_is_kept _ H) as [Hrun Hupd].
  split; [exact H|]. split; [apply Hrun|]. split; [reflexivity|]. apply Hupd.
Defined.

(** ** [updateConfig] *)

Lemma clamp_nan_bound (r : t) (value : number) :
  isNaN (minMarginUsdt (config r)) = true \/
  isNaN (startingMarginUsdt (config r)) = true \/
  isNaN (rampMaxMult (config r)) = true ->
  isNaN (clamp r value) = true.
Proof.
  intros H. unfold clamp, computeRampBounds. cbn [min max].
  rewrite !Math_max_nan, Math_min_nan, !Math_max_nan. cbn [isNaN zero].
  destruct H as [H | [H | H]].
  - rewrite H. reflexivity.
  - destruct (startingMarginUsdt (config r)); try discriminate H.
    cbn [mul SpecFloat.SFmul isNaN]. rewrite !orb_true_r. reflexivity.
  - assert (Hp : isNaN (mul (startingMarginUsdt (config r))
                            (Math_max one (rampMaxMult (config r)))) = true).
    { assert (E : Math_max one (rampMaxMult (config r)) = NaN).
      { destruct (rampMaxMult (config r)); try discriminate H. reflexivity. }
      rewrite E. destruct (startingMarginUsdt (config r)); reflexivity. }
    rewrite Hp, !orb_true_r. reflexivity.
Qed.

(** X7.  [updateConfig(next)] installs the merged configuration and keeps
    both counters.  When the upper bound of the merged configuration is
    finite and the budget is a number, it leaves the budget within the
    merged bounds.  When the merged [minMarginUsdt], [startingMarginUsdt]
    or [rampMaxMult] is [NaN], as after an update that names the key with
    the value [undefined], it leaves the budget [NaN]. *)
Theorem updateConfig_reclamps (next : PartialConfig) (r : t) :
  config (updateConfig next r) = merge (config r) next /\
  successCount (state (updateConfig next r)) = successCount (state r) /\
  failCount (state (updateConfig next r)) = failCount (state r) /\
  (isFinite (max (computeRampBounds (merge (config r) next))) = true ->
   isNaN (getCurrentMarginBudgetUsdt r) = false ->
   within_bounds (merge (config r) next)
                 (getCurrentMarginBudgetUsdt (updateConfig next r))) /\
  (isNaN (minMarginUsdt (merge (config r) next)) = true \/
   isNaN (startingMarginUsdt (merge (config r) next)) = true \/
   isNaN (rampMaxMult (merge (config r) next)) = true ->
   isNaN (getCurrentMarginBudgetUsdt (updateConfig next r)) = true).
Proof.
  split; [reflexivity|]. split; [reflexivity|]. split; [reflexivity|]. split.
  - intros Hfin Hb.
    exact (clamp_lands_within
             {| config := merge (config r) next; state := state r |}
             (getCurrentMarginBudgetUsdt r) Hfin Hb).
  - intros Hnan.
    exact (clamp_nan_bound
             {| config := merge (config r) next; state := state r |}
             (getCurrentMarginBudgetUsdt r) Hnan).
Qed.

Lemma updateConfig_reclamps_witness :
  let r := run (new scenario_config) [of_Z 1; of_Z 1] in
  let lower := mkPartial Absent Absent Absent Absent (Present one) in
  let undefined_min := mkPartial Absent Undefined Absent Absent Absent in
  within_bounds (merge (config r) lower)
                (getCurrentMarginBudgetUsdt (updateConfig lower r)) /\
  getCurrentMarginBudgetUsdt (updateConfig lower r) = of_Z 100 /\
  isNaN (getCurrentMarginBudgetUsdt (updateConfig undefined_min r)) = true.
Proof.
  cbv zeta.
  pose proof (updateConfig_reclamps
                (mkPartial Absent Absent Absent Absent (Present one))
                (run (new scenario_config) [of_Z 1; of_Z 1])) as H1.
  pose proof (updateConfig_reclamps
                (mkPartial Absent Undefined Absent Absent Absent)
                (run (new scenario_config) [of_Z 1; of_Z 1])) as H2.
  destruct H1 as (_ & _ & _ & Hin & _). destruct H2 as (_ & _ & _ & _ & Hnan).
  split; [apply Hin; reflexivity|]. split; [vm_compute; reflexivity|].
  apply Hnan. left. reflexivity.
Defined.

End SizingRamp64.

(* ===================================================================== *)
(** * FreezeController: freeze assessment from execution quality *)
(* ===================================================================== *)

Module FreezeController.

#[local] Open Scope string_scope.

(** [ExecQualityLevel] is a union of string literals declared in
    [orchestrator/types]; the function only compares its argument with two
    literals, so the level is taken as the string it is at run time. *)
Definition ExecQualityLevel : Type := string.

Inductive FreezeReason : Type :=
  | exec_quality_unknown
  | exec_quality_bad.

Record FreezeAssessment : Type := mkFreezeAssessment {
  freezeActive : bool;
  reason : option FreezeReason
}.

Definition assessFreezeFromExecQuality (quality : ExecQualityLevel)
  : FreezeAssessment :=
  if String.eqb quality "UNKNOWN" then
    {| freezeActive := false; reason := Some exec_quality_unknown |}
  else if String.eqb quality "BAD" then
    {| freezeActive := true; reason := Some exec_quality_bad |}
  else
    {| freezeActive := false; reason := None |}.

(** C10.  [assessFreezeFromExecQuality] returns [freezeActive = true] if
    and only if the level is ['BAD']; ['UNKNOWN'] yields [freezeActive =
    false] with the reason ['exec_quality_unknown']; every other level
    yields [freezeActive = false] with reason [null]. *)
Theorem freeze_iff_bad (quality : ExecQualityLevel) :
  (freezeActive (assessFreezeFromExecQuality quality) = true <-> quality = "BAD") /\
  (quality = "UNKNOWN" ->
   assessFreezeFromExecQuality quality
   = {| freezeActive := false; reason := Some exec_quality_unknown |}) /\
  (quality <> "BAD" -> quality <> "UNKNOWN" ->
   assessFreezeFromExecQuality quality
   = {| freezeActive := false; reason := None |}).
Proof.
  unfold assessFreezeFromExecQuality.
  destruct (String.eqb_spec quality "UNKNOWN") as [Hu | Hu].
  - subst quality. split; [|split].
    + split; discriminate.
    + reflexivity.
    + intros _ H. contradiction H. reflexivity.
  - destruct (String.eqb_spec quality "BAD") as [Hb | Hb]; (split; [|split]).
    + split; [intros _; exact Hb | reflexivity].
    + intros H. contradiction.
    + intros H. contradiction.
    + split; [discriminate | intros H; contradiction].
    + intros H. contradiction.
    + reflexivity.
Qed.

Lemma freeze_iff_bad_witness :
  "GOOD" <> "BAD" /\ "GOOD" <> "UNKNOWN" /\
  assessFreezeFromExecQuality "GOOD" = {| freezeActive := false; reason := None |} /\
  assessFreezeFromExecQuality "UNKNOWN"
  = {| freezeActive := false; reason := Some exec_quality_unknown |} /\
  freezeActive (assessFreezeFromExecQuality "BAD") = true.
Proof.
  assert (H1 : "GOOD" <> "BAD") by discriminate.
  assert (H2 : "GOOD" <> "UNKNOWN") by discriminate.
  split; [exact H1|]. split; [exact H2|]. split; [|split].
  - exact (proj2 (proj2 (freeze_iff_bad "GOOD")) H1 H2).
  - exact (proj1 (proj2 (freeze_iff_bad "UNKNOWN")) eq_refl).
  - exact (proj2 (proj1 (freeze_iff_bad "BAD")) eq_refl).
Defined.

End FreezeController.

(* ===================================================================== *)
(** * CvdCalculator: cumulative volume delta per timeframe *)
(* ===================================================================== *)

(** Quantities are exact rationals: the theorems are about which trades a
    window holds and the order in which they are summed. *)
Module CvdCalculator.

#[local] Open Scope Q_scope.

Inductive AggressiveSide : Type := buy | sell.

(** [TradeEvent & { price: number }], the argument of [addTrade]. *)
Record TradeEvent : Type := mkTradeEvent {
  price : Q;
  quantity : Q;
  side : AggressiveSide;
  timestamp : Z
}.

(** [StoredCvdTrade]: the event with its quantity signed, and its arrival. *)
Record StoredCvdTrade : Type := mkStored {
  s_price : Q;
  s_quantity : Q;
  s_side : AggressiveSide;
  s_timestamp : Z;
  s_arrival : Z
}.

Record CvdMetrics : Type := mkCvdMetrics {
  timeframe : string;
  cvd : Q;
  delta : Q
}.

(** [Map.prototype.set] on a map kept in insertion order: the value of a
    present key is replaced in place, a new key goes last. *)
Fixpoint Map_set {V : Type} (k : string) (v : V) (m : list (string * V))
  : list (string * V) :=
  match m with
  | [] => [(k, v)]
  | (k', v') :: rest =>
      if String.eqb k' k then (k', v) :: rest else (k', v') :: Map_set k v rest
  end.

(** The object: [windows] is iterated, so it keeps its insertion order;
    [trades] is only read and written by key. *)
Record t : Type := mk {
  windows : list (string * Z);
  trades : gmap string (list StoredCvdTrade)
}.

Definition default_timeframes : list (string * Z) :=
  [("1m"%string, 60000%Z); ("5m"%string, 300000%Z); ("15m"%string, 900000%Z)].

(** The constructor, on the entries of its [timeframes] argument. *)
Definition new (timeframes : list (string * Z)) : t :=
  fold_left
    (fun c '(tf, ms) =>
       {| windows := Map_set tf ms (windows c);
          trades := <[tf := []]> (trades c) |})
    timeframes
    {| windows := []; trades := ∅ |}.

Definition signedQty (event : TradeEvent) : Q :=
  match side event with buy => quantity event | sell => - quantity event end.

Definition stored (arrival : Z) (event : TradeEvent) : StoredCvdTrade :=
  {| s_price := price event;
     s_quantity := signedQty event;
     s_side := side event;
     s_timestamp := timestamp event;
     s_arrival := arrival |}.

(** One turn of the loop of [addTrade], for the timeframe [(tf, ms)].
    [trades.get(tf)!] never misses on an object built by [new]
    (see [trades_defined]). *)
Definition addTrade_step (arrival : Z) (event : TradeEvent)
    (trs : gmap string (list StoredCvdTrade)) (w : string * Z)
  : gmap string (list StoredCvdTrade) :=
  let '(tf, ms) := w in
  let arr := (trs !!! tf) ++ [stored arrival event] in
  let cutoff := (timestamp event - ms)%Z in
  let filtered := List.filter (fun t => (cutoff <=? s_timestamp t)%Z) arr in
  <[tf := filtered]> trs.

(** [addTrade(event)], the clock reading [arrival] at the call. *)
Definition addTrade (arrival : Z) (event : TradeEvent) (c : t) : t :=
  {| windows := windows c;
     trades := fold_left (addTrade_step arrival event) (windows c) (trades c) |}.

Definition computeMetrics (c : t) : list CvdMetrics :=
  map (fun '(tf, _ms) =>
         let arr := trades c !!! tf in
         let cvd_ := fold_left (fun acc t => acc + s_quantity t) arr 0 in
         let delta_ := cvd_ in
         {| timeframe := tf; cvd := cvd_; delta := delta_ |})
      (windows c).

(** The object after the calls [addTrade(event)] of [calls], each with the
    clock reading at the call. *)
Definition run (c : t) (calls : list (Z * TradeEvent)) : t :=
  fold_left (fun acc '(arrival, event) => addTrade arrival event acc) calls c.

(** Sum of the signed quantities (buy = +quantity, sell = -quantity). *)
Definition signed_sum (events : list TradeEvent) : Q :=
  fold_left (fun acc e => acc + signedQty e) events 0.

(** The events whose timestamp is at least [refTime - durationMs]. *)
Definition in_window (refTime durationMs : Z) (events : list TradeEvent)
  : list TradeEvent :=
  List.filter (fun e => (refTime - durationMs <=? timestamp e)%Z) events.

(** From the reading [prev] on, timestamps never decrease in arrival order. *)
Fixpoint in_order (prev : Z) (events : list TradeEvent) : Prop :=
  match events with
  | [] => True
  | e :: rest => (prev <= timestamp e)%Z /\ in_order (timestamp e) rest
  end.

Definition chronological (events : list TradeEvent) : Prop :=
  match events with
  | [] => True
  | e :: rest => in_order (timestamp e) rest
  end.

(** What one call [addTrade(event)] makes of the list [arr] of a timeframe
    of duration [ms]. *)
Definition evict (ms : Z) (arr : list StoredCvdTrade) (call : Z * TradeEvent)
  : list StoredCvdTrade :=
  List.filter (fun t => (timestamp call.2 - ms <=? s_timestamp t)%Z)
              (arr ++ [stored call.1 call.2]).

(** The timestamp of the last event, [d] when there is none. *)
Definition last_timestamp (d : Z) (events : list TradeEvent) : Z :=
  List.last (map timestamp events) d.

(** The metrics of the timeframe [w] when its window is read off the
    events: the signed sum of those with [timestamp >= refTime - duration],
    as [cvd] and as [delta]. *)
Definition window_metrics (refTime : Z) (events : list TradeEvent)
    (w : string * Z) : CvdMetrics :=
  let s := signed_sum (in_window refTime w.2 events) in
  {| timeframe := w.1; cvd := s; delta := s |}.

(** Three trades in the order of their timestamps, with their arrivals. *)
Definition in_order_calls : list (Z * TradeEvent) :=
  [ (5%Z, mkTradeEvent 99 3 buy 0);
    (70005%Z, mkTradeEvent 100 2 buy 70000);
    (70105%Z, mkTradeEvent 101 1 sell 70100) ].

(** Trades that arrive out of order: timestamps 0, 100000, 0. *)
Definition out_of_order_calls : list (Z * TradeEvent) :=
  [ (0%Z, mkTradeEvent 100 1 buy 0);
    (0%Z, mkTradeEvent 100 1 buy 100000);
    (0%Z, mkTradeEvent 100 1 buy 0) ].

(** An entry of the record [getTradeCounts] returns. *)
Record TradeCount : Type := mkTradeCount {
  count : nat;
  warmUpPct : JsNumber.number
}.

(** The entry of a timeframe of duration [ms] whose list is [arr], the
    clock reading [now]. *)
Definition trade_count (now ms : Z) (arr : list StoredCvdTrade) : TradeCount :=
  let warmUpPct_ :=
    match arr with
    | oldest :: _ =>
        let span := (now - s_timestamp oldest)%Z in
        JsNumber.min (JsNumber.Fin 100)
          (JsNumber.round
             (JsNumber.mul
                (JsNumber.div (JsNumber.Fin (inject_Z span))
                              (JsNumber.Fin (inject_Z ms)))
                (JsNumber.Fin 100)))
    | [] => JsNumber.zero
    end in
  {| count := length arr; warmUpPct := warmUpPct_ |}.

(** [getTradeCounts()], [now] being the clock at the call: the entries of
    the record in the order they are assigned. *)
Definition getTradeCounts (now : Z) (c : t) : list (string * TradeCount) :=
  map (fun '(tf, ms) => (tf, trade_count now ms (default [] (trades c !! tf))))
      (windows c).

(** ** The maps of the object *)

Lemma Map_set_keys {V : Type} (k : string) (v : V) (m : list (string * V)) :
  map fst (Map_set k v m) =
    if existsb (String.eqb k) (map fst m) then map fst m else map fst m ++ [k].
Proof.
  induction m as [|[k' v'] m IH]; [reflexivity|]. simpl.
  destruct (String.eqb_spec k' k) as [->|Hne].
  - rewrite String.eqb_refl. reflexivity.
  - assert (Hkk : String.eqb k k' = false).
    { apply String.eqb_neq. congruence. }
    rewrite Hkk. simpl. rewrite IH.
    destruct (existsb (String.eqb k) (map fst m)); reflexivity.
Qed.

Lemma Map_set_NoDup {V : Type} (k : string) (v : V) (m : list (string * V)) :
  List.NoDup (map fst m) -> List.NoDup (map fst (Map_set k v m)).
Proof.
  intros Hnd. rewrite Map_set_keys.
  destruct (existsb (String.eqb k) (map fst m)) eqn:E; [exact Hnd|].
  apply NoDup_ListNoDup, NoDup_app. repeat split.
  - apply NoDup_ListNoDup. exact Hnd.
  - intros x Hx Hk. apply list_elem_of_singleton in Hk. subst x.
    apply list_elem_of_In in Hx.
    assert (Ht : existsb (String.eqb k) (map fst m) = true).
    { apply existsb_exists. exists k. split; [exact Hx | apply String.eqb_refl]. }
    congruence.
  - apply NoDup_singleton.
Qed.

Lemma new_invariant (timeframes : list (string * Z)) :
  List.NoDup (map fst (windows (new timeframes))) /\
  (forall tf, trades (new timeframes) !!! tf = []) /\
  (forall tf, In tf (map fst (windows (new timeframes))) ->
              is_Some (trades (new timeframes) !! tf)).
Proof.
  unfold new.
  assert (Hinit :
    List.NoDup (map fst (windows {| windows := []; trades := ∅ |})) /\
    (forall tf, trades {| windows := []; trades := ∅ |} !!! tf = []) /\
    (forall tf, In tf (map fst (windows {| windows := []; trades := ∅ |})) ->
                is_Some (trades {| windows := []; trades := ∅ |} !! tf))).
  { simpl. split; [constructor|]. split; [|intros tf []].
    intros tf. rewrite lookup_total_empty. reflexivity. }
  revert Hinit. generalize {| windows := []; trades := ∅ |}.
  induction timeframes as [|[tf ms] rest IH]; intros c Hc; [exact Hc|].
  simpl. apply IH. destruct Hc as (Hnd & Hempty & Hsome). simpl.
  split; [|split].
  - apply Map_set_NoDup. exact Hnd.
  - intros tf'. destruct (decide (tf = tf')) as [->|Hne].
    + apply lookup_total_insert_eq.
    + rewrite lookup_total_insert_ne by exact Hne. apply Hempty.
  - intros tf' Hin. destruct (decide (tf = tf')) as [->|Hne].
    + rewrite lookup_insert_eq. eexists. reflexivity.
    + rewrite lookup_insert_ne by exact Hne. apply Hsome.
      rewrite Map_set_keys in Hin.
      destruct (existsb (String.eqb tf) (map fst (windows c)));
        [exact Hin|].
      apply in_app_or in Hin. destruct Hin as [Hin | [Heq | []]];
        [exact Hin | congruence].
Qed.

Lemma addTrade_windows (arrival : Z) (event : TradeEvent) (c : t) :
  windows (addTrade arrival event c) = windows c.
Proof. reflexivity. Qed.

Lemma run_windows (calls : list (Z * TradeEvent)) (c : t) :
  windows (run c calls) = windows c.
Proof.
  unfold run. revert c.
  induction calls as [|[a e] rest IH]; intros c; [reflexivity|].
  simpl. rewrite IH. reflexivity.
Qed.

Lemma addTrade_step_other (arrival : Z) (event : TradeEvent)
    (ws : list (string * Z)) (trs : gmap string (list StoredCvdTrade))
    (tf : string) :
  ~ In tf (map fst ws) ->
  fold_left (addTrade_step arrival event) ws trs !!! tf = trs !!! tf.
Proof.
  revert trs. induction ws as [|[tf' ms'] ws IH]; intros trs Hnotin;
    [reflexivity|].
  simpl in *. rewrite IH by tauto.
  apply lookup_total_insert_ne. intros ->. tauto.
Qed.

Lemma addTrade_step_lookup (arrival : Z) (event : TradeEvent)
    (ws : list (string * Z)) (trs : gmap string (list StoredCvdTrade))
    (tf : string) (ms : Z) :
  List.NoDup (map fst ws) -> In (tf, ms) ws ->
  fold_left (addTrade_step arrival event) ws trs !!! tf
  = evict ms (trs !!! tf) (arrival, event).
Proof.
  revert trs. induction ws as [|[tf' ms'] ws IH]; intros trs Hnd Hin;
    [contradiction|].
  simpl in Hnd. inversion Hnd as [|? ? Hnotin Hnd']; subst.
  destruct Hin as [Heq | Hin].
  - inversion Heq; subst. simpl.
    rewrite addTrade_step_other by exact Hnotin.
    apply lookup_total_insert_eq.
  - simpl. rewrite (IH _ Hnd' Hin).
    assert (Hne : tf' <> tf).
    { intros ->. apply Hnotin. apply (in_map fst) in Hin. exact Hin. }
    rewrite lookup_total_insert_ne by exact Hne. reflexivity.
Qed.

(** The list of a configured timeframe after a run: every call appended
    its trade and filtered the list. *)
Lemma run_trades (timeframes : list (string * Z))
    (calls : list (Z * TradeEvent)) (tf : string) (ms : Z) :
  In (tf, ms) (windows (new timeframes)) ->
  trades (run (new timeframes) calls) !!! tf = fold_left (evict ms) calls [].
Proof.
  intros Hin.
  destruct (new_invariant timeframes) as (Hnd & Hempty & _).
  rewrite <- (Hempty tf). revert Hin Hnd. clear Hempty.
  generalize (new timeframes). unfold run.
  induction calls as [|[a e] rest IH]; intros c Hin Hnd; [reflexivity|].
  simpl. rewrite IH by (rewrite ?addTrade_windows; assumption).
  unfold addTrade at 1. simpl.
  rewrite (addTrade_step_lookup a e _ _ tf ms Hnd Hin). reflexivity.
Qed.

Lemma addTrade_step_defined (arrival : Z) (event : TradeEvent)
    (ws : list (string * Z)) (trs : gmap string (list StoredCvdTrade))
    (tf : string) :
  is_Some (trs !! tf) ->
  is_Some (fold_left (addTrade_step arrival event) ws trs !! tf).
Proof.
  revert trs. induction ws as [|[tf' ms'] ws IH]; intros trs Hs; [exact Hs|].
  simpl. apply IH. destruct (decide (tf' = tf)) as [->|Hne].
  - rewrite lookup_insert_eq. eexists. reflexivity.
  - rewrite lookup_insert_ne by exact Hne. exact Hs.
Qed.

(** [this.trades.get(tf)!] finds a list for every configured timeframe. *)
Lemma trades_defined (timeframes : list (string * Z))
    (calls : list (Z * TradeEvent)) (tf : string) :
  In tf (map fst (windows (run (new timeframes) calls))) ->
  is_Some (trades (run (new timeframes) calls) !! tf).
Proof.
  rewrite run_windows. intros Hin.
  destruct (new_invariant timeframes) as (_ & _ & Hsome).
  specialize (Hsome tf Hin). revert Hsome. clear Hin.
  generalize (new timeframes). unfold run.
  induction calls as [|[a e] rest IH]; intros c Hs; [exact Hs|].
  simpl. apply IH. unfold addTrade; simpl.
  apply addTrade_step_defined. exact Hs.
Qed.

(** ** Filtering by a cutoff that never decreases *)

Lemma filter_filter_weaker {A : Type} (P Q : A -> bool) (l : list A) :
  (forall x, P x = true -> Q x = true) ->
  List.filter P (List.filter Q l) = List.filter P l.
Proof.
  intros HPQ. induction l as [|x l IH]; [reflexivity|]. simpl.
  destruct (Q x) eqn:EQ; simpl.
  - rewrite IH. reflexivity.
  - destruct (P x) eqn:EP; [|exact IH].
    apply HPQ in EP. congruence.
Qed.

Lemma filter_all {A : Type} (P : A -> bool) (l : list A) :
  List.Forall (fun x => P x = true) l -> List.filter P l = l.
Proof.
  induction 1 as [|x l Hx _ IH]; [reflexivity|].
  simpl. rewrite Hx, IH. reflexivity.
Qed.

Lemma in_order_last (d prev : Z) (events : list TradeEvent) :
  in_order prev events -> events <> [] ->
  (prev <= last_timestamp d events)%Z.
Proof.
  revert prev. induction events as [|e [|e' rest] IH]; intros prev Hord Hne.
  - contradiction.
  - simpl in *. tauto.
  - destruct Hord as [Hpe Hrest].
    specialize (IH (timestamp e) Hrest ltac:(discriminate)).
    unfold last_timestamp in *. simpl in *. lia.
Qed.

Lemma filter_stored (cutoff : Z) (calls : list (Z * TradeEvent)) :
  List.filter (fun t => (cutoff <=? s_timestamp t)%Z)
              (map (fun c => stored c.1 c.2) calls)
  = map (fun c => stored c.1 c.2)
        (List.filter (fun c => (cutoff <=? timestamp c.2)%Z) calls).
Proof.
  induction calls as [|c calls IH]; [reflexivity|]. simpl.
  destruct (cutoff <=? timestamp c.2)%Z; simpl; rewrite IH; reflexivity.
Qed.

Lemma in_window_calls (refTime ms : Z) (calls : list (Z * TradeEvent)) :
  in_window refTime ms (map snd calls)
  = map snd (List.filter (fun c => (refTime - ms <=? timestamp c.2)%Z) calls).
Proof.
  unfold in_window. induction calls as [|c calls IH]; [reflexivity|]. simpl.
  destruct (refTime - ms <=? timestamp c.2)%Z; simpl; rewrite IH; reflexivity.
Qed.

Lemma sum_stored (calls : list (Z * TradeEvent)) (acc : Q) :
  fold_left (fun a t => a + s_quantity t) (map (fun c => stored c.1 c.2) calls) acc
  = fold_left (fun a e => a + signedQty e) (map snd calls) acc.
Proof.
  revert acc. induction calls as [|c calls IH]; intros acc; [reflexivity|].
  simpl. apply IH.
Qed.

(** When timestamps never decrease, the successive filters of a timeframe
    amount to the last one. *)
Lemma fold_evict_in_order (ms d prev : Z) (calls : list (Z * TradeEvent))
    (arr : list StoredCvdTrade) :
  in_order prev (map snd calls) -> calls <> [] ->
  fold_left (evict ms) calls arr
  = List.filter
      (fun t => (last_timestamp d (map snd calls) - ms <=? s_timestamp t)%Z)
      (arr ++ map (fun c => stored c.1 c.2) calls).
Proof.
  revert arr prev. induction calls as [|c [|c' rest] IH]; intros arr prev Hord Hne.
  - contradiction.
  - reflexivity.
  - destruct Hord as [_ Hrest].
    change (fold_left (evict ms) (c :: c' :: rest) arr)
      with (fold_left (evict ms) (c' :: rest) (evict ms arr c)).
    rewrite (IH (evict ms arr c) (timestamp c.2) Hrest ltac:(discriminate)).
    pose proof (in_order_last d _ _ Hrest ltac:(discriminate)) as Hlast.
    change (last_timestamp d (map snd (c :: c' :: rest)))
      with (last_timestamp d (map snd (c' :: rest))).
    set (L := last_timestamp d (map snd (c' :: rest))) in *.
    unfold evict.
    rewrite (List.filter_app _ (List.filter _ _) _).
    rewrite filter_filter_weaker.
    + rewrite <- List.filter_app, <- app_assoc. reflexivity.
    + intros x Hx. apply Z.leb_le in Hx. apply Z.leb_le. lia.
Qed.

(** ** Bounds on the lists *)

Lemma evict_age_bound (ms : Z) (arr : list StoredCvdTrade) (call : Z * TradeEvent) :
  List.Forall (fun t => (timestamp call.2 - ms <= s_timestamp t)%Z)
              (evict ms arr call).
Proof.
  apply List.Forall_forall. intros x Hx.
  apply List.filter_In in Hx. destruct Hx as [_ Hx].
  apply Z.leb_le in Hx. exact Hx.
Qed.

Lemma fold_evict_burst (ms : Z) (call : Z * TradeEvent) (n : nat)
    (arr : list StoredCvdTrade) :
  (0 <= ms)%Z ->
  List.Forall (fun t => s_timestamp t = timestamp call.2) arr ->
  length (fold_left (evict ms) (repeat call n) arr) = (length arr + n)%nat.
Proof.
  intros Hms. revert arr. induction n as [|n IH]; intros arr Harr.
  - simpl. lia.
  - simpl.
    assert (Hsame : List.Forall (fun t => s_timestamp t = timestamp call.2)
                      (arr ++ [stored call.1 call.2])).
    { apply List.Forall_app. split; [exact Harr|]. constructor; [reflexivity|constructor]. }
    assert (Hev : evict ms arr call = arr ++ [stored call.1 call.2]).
    { unfold evict. apply filter_all.
      eapply List.Forall_impl; [|exact Hsame].
      intros t Ht. simpl in Ht. apply Z.leb_le. lia. }
    rewrite Hev, IH by exact Hsame.
    rewrite length_app. simpl. lia.
Qed.

Lemma addTrade_trades (timeframes : list (string * Z))
    (calls : list (Z * TradeEvent)) (arrival : Z) (event : TradeEvent)
    (tf : string) (ms : Z) :
  In (tf, ms) (windows (new timeframes)) ->
  trades (addTrade arrival event (run (new timeframes) calls)) !!! tf
  = evict ms (trades (run (new timeframes) calls) !!! tf) (arrival, event).
Proof.
  intros Hin. unfold addTrade; simpl.
  apply addTrade_step_lookup; rewrite run_windows; [|exact Hin].
  apply new_invariant.
Qed.

(** ** The reading of [computeMetrics] *)

(** C3 (amended).  For any sequence of trades added via [addTrade] with
    timestamps that never decrease, [computeMetrics] returns, for each
    configured timeframe, a [cvd] equal to the sum of the signed quantities
    (buy = +quantity, sell = -quantity) of exactly the trades with
    [timestamp >= refTime - durationMs], [refTime] being the timestamp of
    the trade added last, and a [delta] equal to [cvd]. *)
Theorem cvd_is_window_sum_in_order
    (timeframes : list (string * Z)) (calls : list (Z * TradeEvent)) :
  chronological (map snd calls) ->
  let c := run (new timeframes) calls in
  let refTime := last_timestamp 0 (map snd calls) in
  computeMetrics c
  = map (window_metrics refTime (map snd calls)) (windows (new timeframes)).
Proof.
  intros Hord c refTime. unfold computeMetrics. subst c.
  rewrite run_windows. apply map_ext_in. intros [tf ms] Hin.
  rewrite (run_trades timeframes calls tf ms Hin).
  unfold window_metrics, signed_sum. simpl.
  assert (Hsum :
    fold_left (fun acc t => acc + s_quantity t) (fold_left (evict ms) calls []) 0
    = fold_left (fun acc e => acc + signedQty e)
                (in_window refTime ms (map snd calls)) 0).
  { destruct calls as [|c0 rest]; [reflexivity|].
    assert (Hord' : in_order (timestamp c0.2) (map snd (c0 :: rest))).
    { simpl. split; [lia | exact Hord]. }
    rewrite (fold_evict_in_order ms 0 _ _ [] Hord' ltac:(discriminate)).
    fold refTime. rewrite app_nil_l, filter_stored, sum_stored.
    rewrite in_window_calls. reflexivity. }
  rewrite Hsum. reflexivity.
Qed.

Lemma cvd_is_window_sum_in_order_witness :
  chronological (map snd in_order_calls) /\
  computeMetrics (run (new default_timeframes) in_order_calls)
  = map (window_metrics 70100 (map snd in_order_calls))
        (windows (new default_timeframes)).
Proof.
  assert (H : chronological (map snd in_order_calls)) by (simpl; lia).
  split; [exact H|].
  exact (cvd_is_window_sum_in_order default_timeframes in_order_calls H).
Defined.

(** C3, as stated for any sequence of trades, fails when trades arrive out
    of order: after buys of quantity 1 at timestamps 0, 100000 and 0, the
    one-minute list holds the second and the third trade (the first was
    evicted when the second arrived) and [cvd = 2]; no reference time
    selects the third trade without the first, so the sum over
    [timestamp >= refTime - 60000] is 3, 1 or 0 for every [refTime]. *)
Lemma out_of_order_counterexample :
  ~ exists refTime : Z,
      forall m,
        In m (computeMetrics
                (run (new [("1m"%string, 60000%Z)]) out_of_order_calls)) ->
        cvd m == signed_sum (in_window refTime 60000 (map snd out_of_order_calls)).
Proof.
  intros [refTime H].
  assert (Hm : computeMetrics
                 (run (new [("1m"%string, 60000%Z)]) out_of_order_calls)
               = [ {| timeframe := "1m"; cvd := 2; delta := 2 |} ])
    by (vm_compute; reflexivity).
  rewrite Hm in H. specialize (H _ (or_introl eq_refl)). simpl in H.
  unfold in_window, signed_sum, signedQty in H. simpl in H.
  destruct (Z.leb_spec (refTime - 60000) 0) as [H0 | H0];
    destruct (Z.leb_spec (refTime - 60000) 100000) as [H1 | H1];
    simpl in H; try lia; vm_compute in H; discriminate H.
Qed.

(** ** The warm-up percentage *)

Lemma round_at_least (x : Q) (n : Z) :
  inject_Z n <= x -> (n <= Qfloor (x + (1 # 2)))%Z.
Proof.
  intros H. rewrite <- (Qfloor_Z n). apply Qfloor_resp_le. lra.
Qed.

(** X9.  For a timeframe of positive duration and the entry
    [getTradeCounts] computes for it: [count] is the number of stored
    trades; [warmUpPct] is 0 when the list is empty, never exceeds 100, and
    is 100 as soon as the oldest stored trade is at least one duration
    older than the clock. *)
Theorem warmUp_capped (now ms : Z) (arr : list StoredCvdTrade) :
  (0 < ms)%Z ->
  count (trade_count now ms arr) = length arr /\
  (arr = [] -> warmUpPct (trade_count now ms arr) = JsNumber.zero) /\
  JsNumber.leb (warmUpPct (trade_count now ms arr)) (JsNumber.Fin 100) = true /\
  (forall oldest rest, arr = oldest :: rest ->
     (ms <= now - s_timestamp oldest)%Z ->
     warmUpPct (trade_count now ms arr) = JsNumber.Fin 100).
Proof.
  intros Hms. split; [reflexivity|]. split; [intros ->; reflexivity|].
  assert (Hmsq : 0 < inject_Z ms).
  { change 0 with (inject_Z 0). rewrite <- Zlt_Qlt. exact Hms. }
  assert (Hwarm : forall oldest rest, arr = oldest :: rest ->
    warmUpPct (trade_count now ms arr) =
      let pct := inject_Z (Qfloor (inject_Z (now - s_timestamp oldest)
                                   / inject_Z ms * 100 + (1 # 2))) in
      if Qle_bool 100 pct then JsNumber.Fin 100 else JsNumber.Fin pct).
  { intros oldest rest ->. unfold trade_count. cbn [warmUpPct JsNumber.div].
    rewrite (JsNumber.Qeq_bool_pos _ Hmsq). reflexivity. }
  split.
  - destruct arr as [|oldest rest]; [reflexivity|].
    rewrite (Hwarm oldest rest eq_refl). cbv zeta.
    destruct (Qle_bool 100 _) eqn:E.
    + reflexivity.
    + apply JsNumber.leb_Fin. apply JsNumber.Qle_bool_false in E. lra.
  - intros oldest rest Harr Hold. rewrite (Hwarm oldest rest Harr). cbv zeta.
    destruct (Qle_bool 100 _) eqn:E; [reflexivity|].
    apply JsNumber.Qle_bool_false in E.
    exfalso. revert E. apply Qle_not_lt.
    assert (Hratio : 1 <= inject_Z (now - s_timestamp oldest) / inject_Z ms).
    { apply Qle_shift_div_l; [exact Hmsq|]. rewrite Qmult_1_l.
      rewrite <- Zle_Qle. exact Hold. }
    change 100 with (inject_Z 100). rewrite <- Zle_Qle.
    apply round_at_least. change (inject_Z 100) with 100. lra.
Qed.

Lemma warmUp_capped_witness :
  (0 < 60000)%Z /\
  JsNumber.leb (warmUpPct (trade_count 30000 60000
                             [stored 5 (mkTradeEvent 99 3 buy 0)]))
               (JsNumber.Fin 100) = true /\
  warmUpPct (trade_count 90000 60000 [stored 5 (mkTradeEvent 99 3 buy 0)])
  = JsNumber.Fin 100.
Proof.
  assert (H : (0 < 60000)%Z) by reflexivity.
  split; [exact H|]. split.
  - exact (proj1 (proj2 (proj2
             (warmUp_capped 30000 60000 [stored 5 (mkTradeEvent 99 3 buy 0)] H)))).
  - apply (proj2 (proj2 (proj2
             (warmUp_capped 90000 60000 [stored 5 (mkTradeEvent 99 3 buy 0)] H)))
             _ _ eq_refl).
    simpl. lia.
Defined.

(** ** Timeframes side by side *)

Lemma filter_sublist_mono {A : Type} (P : A -> bool) (l1 l2 : list A) :
  sublist l1 l2 -> sublist (List.filter P l1) (List.filter P l2).
Proof.
  induction 1 as [|x l1 l2 _ IH|x l1 l2 _ IH]; simpl.
  - constructor.
  - destruct (P x); [constructor|]; exact IH.
  - destruct (P x); [constructor|]; exact IH.
Qed.

Lemma filter_sublist_weaker {A : Type} (P Q : A -> bool) (l : list A) :
  (forall x, P x = true -> Q x = true) ->
  sublist (List.filter P l) (List.filter Q l).
Proof.
  intros HPQ. induction l as [|x l IH]; simpl; [constructor|].
  destruct (P x) eqn:EP.
  - rewrite (HPQ _ EP). constructor. exact IH.
  - destruct (Q x); [constructor|]; exact IH.
Qed.

Lemma fold_evict_sublist (ms1 ms2 : Z) (calls : list (Z * TradeEvent))
    (arr1 arr2 : list StoredCvdTrade) :
  (ms1 <= ms2)%Z -> sublist arr1 arr2 ->
  sublist (fold_left (evict ms1) calls arr1) (fold_left (evict ms2) calls arr2).
Proof.
  intros Hms. revert arr1 arr2.
  induction calls as [|call calls IH]; intros arr1 arr2 Hsub; [exact Hsub|].
  simpl. apply IH. unfold evict.
  etrans.
  - apply filter_sublist_mono. apply sublist_app; [exact Hsub | reflexivity].
  - apply filter_sublist_weaker. intros x Hx.
    apply Z.leb_le in Hx. apply Z.leb_le. lia.
Qed.

(** X10.  Whatever the order of the trades, a shorter timeframe never
    holds a trade that a longer one has dropped: the list of the shorter
    is a sublist of the list of the longer, and so is not longer. *)
Theorem shorter_timeframe_holds_less
    (timeframes : list (string * Z)) (calls : list (Z * TradeEvent))
    (tf1 tf2 : string) (ms1 ms2 : Z) :
  In (tf1, ms1) (windows (new timeframes)) ->
  In (tf2, ms2) (windows (new timeframes)) ->
  (ms1 <= ms2)%Z ->
  sublist (trades (run (new timeframes) calls) !!! tf1)
          (trades (run (new timeframes) calls) !!! tf2) /\
  (length (trades (run (new timeframes) calls) !!! tf1)
   <= length (trades (run (new timeframes) calls) !!! tf2))%nat.
Proof.
  intros H1 H2 Hms.
  rewrite (run_trades timeframes calls tf1 ms1 H1).
  rewrite (run_trades timeframes calls tf2 ms2 H2).
  assert (Hsub : sublist (fold_left (evict ms1) calls [])
                         (fold_left (evict ms2) calls [])).
  { apply fold_evict_sublist; [exact Hms | constructor]. }
  split; [exact Hsub | apply sublist_length; exact Hsub].
Qed.

Lemma shorter_timeframe_holds_less_witness :
  In ("1m"%string, 60000%Z) (windows (new default_timeframes)) /\
  In ("5m"%string, 300000%Z) (windows (new default_timeframes)) /\
  (60000 <= 300000)%Z /\
  (length (trades (run (new default_timeframes) out_of_order_calls) !!! "1m"%string)
   <= length (trades (run (new default_timeframes) out_of_order_calls) !!! "5m"%string))%nat.
Proof.
  assert (H1 : In ("1m"%string, 60000%Z) (windows (new default_timeframes)))
    by (left; reflexivity).
  assert (H2 : In ("5m"%string, 300000%Z) (windows (new default_timeframes)))
    by (right; left; reflexivity).
  assert (H3 : (60000 <= 300000)%Z) by lia.
  split; [exact H1|]. split; [exact H2|]. split; [exact H3|].
  exact (proj2 (shorter_timeframe_holds_less default_timeframes out_of_order_calls
                  "1m"%string "5m"%string 60000 300000 H1 H2 H3)).
Defined.

(** X11.  In every configured timeframe whose duration is not negative,
    the list ends with the trade just added, signed and stamped with its
    arrival: a trade is never dropped by its own call. *)
Theorem added_trade_is_last
    (timeframes : list (string * Z)) (calls : list (Z * TradeEvent))
    (arrival : Z) (event : TradeEvent) (tf : string) (ms : Z) :
  In (tf, ms) (windows (new timeframes)) -> (0 <= ms)%Z ->
  exists earlier,
    trades (addTrade arrival event (run (new timeframes) calls)) !!! tf
    = earlier ++ [stored arrival event] /\
    sublist earlier (trades (run (new timeframes) calls) !!! tf).
Proof.
  intros Hin Hms.
  rewrite (addTrade_trades timeframes calls arrival event tf ms Hin).
  unfold evict. rewrite List.filter_app. cbn [fst snd List.filter stored s_timestamp].
  assert (Hkeep : (timestamp event - ms <=? timestamp event)%Z = true)
    by (apply Z.leb_le; lia).
  rewrite Hkeep. eexists. split; [reflexivity|].
  clear. induction (trades (run (new timeframes) calls) !!! tf) as [|x l IH];
    simpl; [constructor|].
  destruct (_ <=? _)%Z; constructor; exact IH.
Qed.

Lemma added_trade_is_last_witness :
  In ("1m"%string, 60000%Z) (windows (new default_timeframes)) /\
  (0 <= 60000)%Z /\
  exists earlier,
    trades (addTrade 7 (mkTradeEvent 100 1 sell 50)
              (run (new default_timeframes) in_order_calls)) !!! "1m"%string
    = earlier ++ [stored 7 (mkTradeEvent 100 1 sell 50)] /\
    sublist earlier (trades (run (new default_timeframes) in_order_calls) !!! "1m"%string).
Proof.
  assert (H1 : In ("1m"%string, 60000%Z) (windows (new default_timeframes)))
    by (left; reflexivity).
  assert (H2 : (0 <= 60000)%Z) by lia.
  split; [exact H1|]. split; [exact H2|].
  exact (added_trade_is_last default_timeframes in_order_calls 7
           (mkTradeEvent 100 1 sell 50) "1m"%string 60000 H1 H2).
Defined.

End CvdCalculator.

(* ===================================================================== *)
(** * OrderbookManager: the depth-book synchroniser *)
(* ===================================================================== *)

Module OrderbookManager.

#[local] Open Scope Z_scope.

(** Modelled from the spec: the module [metrics/OrderbookManager]
    ([createOrderbookState], [applySnapshot], [applyDepthUpdate], [bestBid],
    [bestAsk]) is not among the sources; only its callers and its test are.
    The definitions below follow sections 3 and 4.1 of the specification:
    two price-to-size maps and [lastUpdateId]; a pair [(price, size)]
    removes the level when [size = 0] and upserts it otherwise; a diff
    carries the first id [U] and the last id [u] of its batch, so
    [U <= u], and on such a diff exactly one of the three rows of the
    outcome table applies ([rows_partition]). *)
Record OrderbookState : Type := mkOrderbookState {
  bids : gmap Qc Q;
  asks : gmap Qc Q;
  lastUpdateId : Z
}.

Definition Level : Type := (Qc * Q)%type.

Record DepthCache : Type := mkDepthCache {
  snapshot_lastUpdateId : Z;
  snapshot_bids : list Level;
  snapshot_asks : list Level
}.

Record DepthUpdate : Type := mkDepthUpdate {
  U : Z;
  u : Z;
  b : list Level;
  a : list Level;
  eventTimeMs : Z;
  receiptTimeMs : Z
}.

(** The result object; a property the specification leaves out of a result
    reads as [false]. *)
Record ApplyResult : Type := mkApplyResult {
  ok : bool;
  applied : bool;
  dropped : bool;
  gapDetected : bool
}.

Definition result_dropped : ApplyResult := mkApplyResult true false true false.
Definition result_applied : ApplyResult := mkApplyResult true true false false.
Definition result_gap : ApplyResult := mkApplyResult false false false true.

(** Modelled from the spec: "created empty", [lastUpdateId = -1] before the
    first snapshot. *)
Definition createOrderbookState : OrderbookState :=
  {| bids := ∅; asks := ∅; lastUpdateId := -1 |}.

(** Modelled from the spec: "if [size == 0], remove the level; else upsert". *)
Definition applyLevel (side : gmap Qc Q) (level : Level) : gmap Qc Q :=
  if Qeq_bool level.2 0 then delete level.1 side else <[level.1 := level.2]> side.

Definition applyLevels (side : gmap Qc Q) (levels : list Level) : gmap Qc Q :=
  fold_left applyLevel levels side.

(** Modelled from the spec: "Snapshot application replaces both sides
    atomically; [lastUpdateId] is set to the snapshot's id." *)
Definition applySnapshot (ob : OrderbookState) (snapshot : DepthCache)
  : OrderbookState :=
  {| bids := applyLevels ∅ (snapshot_bids snapshot);
     asks := applyLevels ∅ (snapshot_asks snapshot);
     lastUpdateId := snapshot_lastUpdateId snapshot |}.

(** Modelled from the spec: the outcome table of the sequence rule. *)
Definition applyDepthUpdate (ob : OrderbookState) (update : DepthUpdate)
  : OrderbookState * ApplyResult :=
  if u update <=? lastUpdateId ob then
    (ob, result_dropped)
  else if (U update <=? lastUpdateId ob + 1) && (lastUpdateId ob + 1 <=? u update) then
    ({| bids := applyLevels (bids ob) (b update);
        asks := applyLevels (asks ob) (a update);
        lastUpdateId := u update |},
     result_applied)
  else
    (ob, result_gap).

(** The prices of a side that carry a positive size. *)
Definition live_prices (side : gmap Qc Q) : list Qc :=
  map fst (List.filter (fun l : Level => negb (Qle_bool l.2 0)) (map_to_list side)).

Definition Qc_max (x y : Qc) : Qc := if Qle_bool x y then y else x.
Definition Qc_min (x y : Qc) : Qc := if Qle_bool x y then x else y.

Definition extremum (pick : Qc -> Qc -> Qc) (prices : list Qc) : option Qc :=
  match prices with
  | [] => None
  | p :: rest => Some (fold_left pick rest p)
  end.

(** Modelled from the spec: "the best bid (max price with size>0)", "the
    best ask (min price with size>0)"; [None] is [undefined]. *)
Definition bestBid (ob : OrderbookState) : option Qc :=
  extremum Qc_max (live_prices (bids ob)).

Definition bestAsk (ob : OrderbookState) : option Qc :=
  extremum Qc_min (live_prices (asks ob)).

(** The size the pairs of [levels] give the price [p], when one names it:
    the last such pair wins. *)
Fixpoint last_size (p : Qc) (levels : list Level) : option Q :=
  match levels with
  | [] => None
  | l :: rest =>
      match last_size p rest with
      | Some s => Some s
      | None => if decide (l.1 = p) then Some l.2 else None
      end
  end.

(** The scenario of [SequenceRule.test.ts]. *)
Definition test_update (first last : Z) : DepthUpdate :=
  {| U := first; u := last; b := []; a := []; eventTimeMs := 0; receiptTimeMs := 0 |}.

Definition with_lastUpdateId (ob : OrderbookState) (id : Z) : OrderbookState :=
  {| bids := bids ob; asks := asks ob; lastUpdateId := id |}.

(** ** What applying the pairs of a diff does to a side *)

Lemma applyLevel_lookup (side : gmap Qc Q) (level : Level) (p : Qc) :
  applyLevel side level !! p =
    if decide (level.1 = p)
    then (if Qeq_bool level.2 0 then None else Some level.2)
    else side !! p.
Proof.
  unfold applyLevel.
  destruct (Qeq_bool level.2 0); destruct (decide (level.1 = p)) as [->|Hne].
  - apply lookup_delete_eq.
  - apply lookup_delete_ne. exact Hne.
  - apply lookup_insert_eq.
  - apply lookup_insert_ne. exact Hne.
Qed.

(** After the pairs are applied, a price named by a pair carries the size
    of its last pair (no level when that size is 0), and any other price is
    as before. *)
Lemma applyLevels_lookup (levels : list Level) (side : gmap Qc Q) (p : Qc) :
  applyLevels side levels !! p =
    match last_size p levels with
    | Some s => if Qeq_bool s 0 then None else Some s
    | None => side !! p
    end.
Proof.
  revert side. induction levels as [|l levels IH]; intros side; [reflexivity|].
  unfold applyLevels in *. simpl. rewrite IH.
  destruct (last_size p levels); [reflexivity|].
  rewrite applyLevel_lookup. destruct (decide (l.1 = p)); reflexivity.
Qed.

(** ** The sequence rule *)

(** The three rows of the outcome table exclude one another on a diff
    whose first id is not after its last, and one of them applies. *)
Lemma rows_partition (ob : OrderbookState) (update : DepthUpdate) :
  U update <= u update ->
  (u update <= lastUpdateId ob /\
   ~ U update <= lastUpdateId ob + 1 <= u update /\
   ~ U update > lastUpdateId ob + 1) \/
  (~ u update <= lastUpdateId ob /\
   U update <= lastUpdateId ob + 1 <= u update /\
   ~ U update > lastUpdateId ob + 1) \/
  (~ u update <= lastUpdateId ob /\
   ~ U update <= lastUpdateId ob + 1 <= u update /\
   U update > lastUpdateId ob + 1).
Proof. lia. Qed.

(** C1.  For every order-book state and every depth diff [{U, u, b, a}],
    [U] being the first and [u] the last update id of its batch, so that
    [U <= u]: if [u <= lastUpdateId] the synchroniser returns
    [{ok:true, dropped:true}] and leaves the state unchanged; if
    [U <= lastUpdateId + 1 <= u] it applies every [(price, size)] pair of
    [b] and [a] (a level is removed by size 0 and set otherwise, the last
    pair of a price deciding) and sets [lastUpdateId = u], returning
    [{ok:true, applied:true}]; and if [U > lastUpdateId + 1] it returns
    [{ok:false, gapDetected:true}] and leaves the state unchanged. *)
Theorem sequence_rule (ob : OrderbookState) (update : DepthUpdate) :
  U update <= u update ->
  (u update <= lastUpdateId ob ->
   applyDepthUpdate ob update = (ob, result_dropped)) /\
  (U update <= lastUpdateId ob + 1 <= u update ->
   (applyDepthUpdate ob update).2 = result_applied /\
   lastUpdateId (applyDepthUpdate ob update).1 = u update /\
   forall p : Qc,
     bids (applyDepthUpdate ob update).1 !! p =
       match last_size p (b update) with
       | Some s => if Qeq_bool s 0 then None else Some s
       | None => bids ob !! p
       end /\
     asks (applyDepthUpdate ob update).1 !! p =
       match last_size p (a update) with
       | Some s => if Qeq_bool s 0 then None else Some s
       | None => asks ob !! p
       end) /\
  (U update > lastUpdateId ob + 1 ->
   applyDepthUpdate ob update = (ob, result_gap)).
Proof.
  intros Hdiff. unfold applyDepthUpdate. split; [|split].
  - intros Hu. apply Z.leb_le in Hu. rewrite Hu. reflexivity.
  - intros [HU Hu].
    assert (H1 : (u update <=? lastUpdateId ob) = false) by (apply Z.leb_gt; lia).
    assert (H2 : (U update <=? lastUpdateId ob + 1) = true) by (apply Z.leb_le; lia).
    assert (H3 : (lastUpdateId ob + 1 <=? u update) = true) by (apply Z.leb_le; lia).
    rewrite H1, H2, H3. simpl. split; [reflexivity|]. split; [reflexivity|].
    intros p. split; apply applyLevels_lookup.
  - intros HU.
    assert (H1 : (u update <=? lastUpdateId ob) = false) by (apply Z.leb_gt; lia).
    assert (H2 : (U update <=? lastUpdateId ob + 1) = false) by (apply Z.leb_gt; lia).
    rewrite H1, H2. reflexivity.
Qed.

Example sequence_rule_test :
  let ob := applySnapshot createOrderbookState (mkDepthCache 10 [] []) in
  let r1 := applyDepthUpdate ob (test_update 11 15) in
  let r2 := applyDepthUpdate (with_lastUpdateId r1.1 20) (test_update 22 25) in
  let r3 := applyDepthUpdate (with_lastUpdateId r2.1 30) (test_update 28 30) in
  (ok r1.2 = true /\ applied r1.2 = true /\ lastUpdateId r1.1 = 15) /\
  (ok r2.2 = false /\ gapDetected r2.2 = true) /\
  (ok r3.2 = true /\ dropped r3.2 = true).
Proof. vm_compute. repeat split. Qed.

Lemma sequence_rule_witness :
  let ob := applySnapshot createOrderbookState (mkDepthCache 10 [] []) in
  (applyDepthUpdate ob (test_update 11 15)).2 = result_applied /\
  lastUpdateId (applyDepthUpdate ob (test_update 11 15)).1 = 15 /\
  applyDepthUpdate ob (test_update 12 15) = (ob, result_gap) /\
  applyDepthUpdate ob (test_update 8 10) = (ob, result_dropped).
Proof.
  intros ob.
  destruct (sequence_rule ob (test_update 11 15)) as (_ & Happlied & _);
    [simpl; lia|].
  destruct (sequence_rule ob (test_update 12 15)) as (_ & _ & Hgap);
    [simpl; lia|].
  destruct (sequence_rule ob (test_update 8 10)) as (Hdrop & _ & _);
    [simpl; lia|].
  destruct Happlied as (Hr & Hid & _); [simpl; lia|].
  split; [exact Hr|]. split; [exact Hid|]. split.
  - apply Hgap; simpl; lia.
  - apply Hdrop; simpl; lia.
Defined.

(** On such diffs the table leaves no choice: whatever function returns
    the result of each row where the row applies returns the results of
    [applyDepthUpdate]. *)
Lemma table_determines_result
    (f : OrderbookState -> DepthUpdate -> OrderbookState * ApplyResult) :
  (forall ob update,
     (u update <= lastUpdateId ob -> (f ob update).2 = result_dropped) /\
     (U update <= lastUpdateId ob + 1 <= u update ->
      (f ob update).2 = result_applied) /\
     (U update > lastUpdateId ob + 1 -> (f ob update).2 = result_gap)) ->
  forall ob update,
    U update <= u update -> (f ob update).2 = (applyDepthUpdate ob update).2.
Proof.
  intros Hf ob update Hdiff.
  destruct (Hf ob update) as (Hd & Ha & Hg).
  unfold applyDepthUpdate.
  destruct (rows_partition ob update Hdiff)
    as [(H1 & _ & _) | [(H1 & H2 & _) | (H1 & _ & H3)]].
  - rewrite (Hd H1). apply Z.leb_le in H1. rewrite H1. reflexivity.
  - rewrite (Ha H2).
    assert (E1 : (u update <=? lastUpdateId ob) = false) by (apply Z.leb_gt; lia).
    assert (E2 : (U update <=? lastUpdateId ob + 1) = true) by (apply Z.leb_le; lia).
    assert (E3 : (lastUpdateId ob + 1 <=? u update) = true) by (apply Z.leb_le; lia).
    rewrite E1, E2, E3. reflexivity.
  - rewrite (Hg H3).
    assert (E1 : (u update <=? lastUpdateId ob) = false) by (apply Z.leb_gt; lia).
    assert (E2 : (U update <=? lastUpdateId ob + 1) = false) by (apply Z.leb_gt; lia).
    rewrite E1, E2. reflexivity.
Qed.

End OrderbookManager.

(* ===================================================================== *)
(** * LegacyCalculator: order-book imbalance, deltas, session CVD, VWAP *)
(* ===================================================================== *)

(** Prices, quantities and sizes are exact rationals.  The theorems are
    about which trades and levels are summed and in what order, and about
    order relations that rounding preserves; where the additions of the
    code can overflow, a theorem says how far it reaches. *)
Module LegacyCalculator.

Import OrderbookManager.
#[local] Open Scope Q_scope.

Inductive Side : Type := buy | sell.

Record LegacyTrade : Type := mkLegacyTrade {
  price : Q;
  quantity : Q;
  side : Side;
  timestamp : Z
}.

Definition EPSILON : Q := 1 # 1000000000000.

(** Declared by the source with the comment "Maximum trade window (10
    seconds worth)" and read by none of its code. *)
Definition MAX_TRADES_WINDOW : Z := 10000.

(** The fields of the object that its methods read or write; the optional
    open-interest monitor it forwards to is [OpenInterestMonitor] below. *)
Record t : Type := mk {
  trades : list LegacyTrade;
  deltaHistory : list Q;
  cvdHistory : list Q;
  cvdSession : Q;
  totalVolume : Q;
  totalNotional : Q;
  volatilityHistory : list Q;
  volumeHistory : list Q;
  lastMidPrice : Q
}.

Definition new : t :=
  {| trades := []; deltaHistory := []; cvdHistory := []; cvdSession := 0;
     totalVolume := 0; totalNotional := 0; volatilityHistory := [];
     volumeHistory := []; lastMidPrice := 0 |}.

Definition signed (trade : LegacyTrade) : Q :=
  match side trade with buy => quantity trade | sell => - quantity trade end.

(** [while (xs.length > 0 && expired(xs[0])) xs.shift()]. *)
Fixpoint shift_while {A : Type} (expired : A -> bool) (xs : list A) : list A :=
  match xs with
  | [] => []
  | x :: rest => if expired x then shift_while expired rest else xs
  end.

(** [xs.push(x); if (xs.length > cap) xs.shift()]. *)
Definition push_capped {A : Type} (cap : nat) (x : A) (xs : list A) : list A :=
  let pushed := xs ++ [x] in
  if (cap <? length pushed)%nat then tl pushed else pushed.

(** Net signed volume of the trades with [timestamp >= cutoff]. *)
Definition delta_since (cutoff : Z) (ts : list LegacyTrade) : Q :=
  fold_left (fun acc tr => if (cutoff <=? timestamp tr)%Z then acc + signed tr else acc)
            ts 0.

Definition addTrade (trade : LegacyTrade) (c : t) : t :=
  let now := timestamp trade in
  let pushed := trades c ++ [trade] in
  let totalVolume_ := totalVolume c + quantity trade in
  let totalNotional_ := totalNotional c + quantity trade * price trade in
  let cvdSession_ := cvdSession c + signed trade in
  let cutoff := (now - 10000)%Z in
  let kept := shift_while (fun tr => (timestamp tr <? cutoff)%Z) pushed in
  (* the loop of the source also sums delta5s and count1s, and uses neither *)
  let delta1s := delta_since (now - 1000) kept in
  {| trades := kept;
     deltaHistory := push_capped 60 delta1s (deltaHistory c);
     cvdHistory := push_capped 60 cvdSession_ (cvdHistory c);
     cvdSession := cvdSession_;
     totalVolume := totalVolume_;
     totalNotional := totalNotional_;
     volatilityHistory := volatilityHistory c;
     volumeHistory := push_capped 100 (quantity trade) (volumeHistory c);
     lastMidPrice := lastMidPrice c |}.

Definition sum (values : list Q) : Q := fold_left Qplus values 0.

Definition count (values : list Q) : Q := inject_Z (Z.of_nat (length values)).

Definition Qabs_lt (x bound : Q) : bool :=
  negb (Qle_bool bound x) && negb (Qle_bool bound (- x)).

Section WithSquareRoot.

(** [Math.sqrt], which the rationals do not have. *)
Variable sqrt : Q -> Q.

Definition variance (values : list Q) (mean : Q) : Q :=
  fold_left (fun acc v => acc + (v - mean) * (v - mean)) values 0 / count values.

Definition calculateStdDev (values : list Q) : Q :=
  match values with
  | [] => 0
  | _ => sqrt (variance values (sum values / count values))
  end.

Definition calculateSlope (values : list Q) : Q :=
  let n := length values in
  if (n <? 2)%nat then 0 else
  let xs := map (fun i => inject_Z (Z.of_nat i)) (seq 0 n) in
  let ys := values in
  let sumX := sum xs in
  let sumY := sum ys in
  let sumXX := fold_left (fun a b => a + b * b) xs 0 in
  let sumXY := fold_left (fun acc xy => acc + xy.1 * xy.2) (combine xs ys) 0 in
  let denom := count values * sumXX - sumX * sumX in
  if Qabs_lt denom EPSILON then 0
  else (count values * sumXY - sumX * sumY) / denom.

(** Insertion of [x] before the first entry it may precede: the sort is
    stable, as [Array.prototype.sort] is. *)
Fixpoint insert_level (precedes : Level -> Level -> bool) (x : Level)
    (sorted : list Level) : list Level :=
  match sorted with
  | [] => [x]
  | y :: rest =>
      if precedes x y then x :: sorted else y :: insert_level precedes x rest
  end.

Definition sort_levels (precedes : Level -> Level -> bool) (entries : list Level)
  : list Level :=
  fold_right (insert_level precedes) [] entries.

(** The comparator [(a, b) => isAsk ? a[0] - b[0] : b[0] - a[0]] is not
    positive: [a] may stay before [b]. *)
Definition precedes (isAsk : bool) (x y : Level) : bool :=
  if isAsk then Qle_bool x.1 y.1 else Qle_bool y.1 x.1.

(** The helper [calcVolume] of [computeMetrics]. *)
Definition calcVolume (levels : gmap Qc Q) (depth : nat) (isAsk : bool) : Q :=
  let entries := sort_levels (precedes isAsk) (map_to_list levels) in
  fold_left (fun vol (entry : Level) => vol + entry.2)
            (firstn (Nat.min depth (length entries)) entries) 0.

(** The normalised imbalance of two volumes. *)
Definition imbalance (bidVol askVol : Q) : Q :=
  let raw := bidVol - askVol in
  let denom := bidVol + askVol in
  if negb (Qle_bool denom EPSILON) then raw / denom else 0.

Record Metrics : Type := mkMetrics {
  m_price : Q;
  obiWeighted : Q;
  obiDeep : Q;
  obiDivergence : Q;
  delta1s : Q;
  delta5s : Q;
  deltaZ : Q;
  m_cvdSession : Q;
  cvdSlope : Q;
  vwap : Q;
  m_totalVolume : Q;
  m_totalNotional : Q;
  tradeCount : nat
}.

Definition price_or_zero (p : option Qc) : Q :=
  match p with Some q => this q | None => 0 end.

(** [computeMetrics(ob)], [now] being the clock at the call. *)
Definition computeMetrics (now : Z) (c : t) (ob : OrderbookState) : Metrics :=
  let bidVol10 := calcVolume (bids ob) 10 false in
  let askVol10 := calcVolume (asks ob) 10 true in
  let obiWeighted_ := imbalance bidVol10 askVol10 in
  let bidVol50 := calcVolume (bids ob) 50 false in
  let askVol50 := calcVolume (asks ob) 50 true in
  let obiDeep_ := imbalance bidVol50 askVol50 in
  let obiDivergence_ := obiWeighted_ - obiDeep_ in
  let refTime := List.last (map timestamp (trades c)) now in
  let delta1s_ := delta_since (refTime - 1000) (trades c) in
  let delta5s_ := delta_since (refTime - 5000) (trades c) in
  let deltaZ_ :=
    if (5 <=? length (deltaHistory c))%nat then
      let mean := sum (deltaHistory c) / count (deltaHistory c) in
      let std := sqrt (variance (deltaHistory c) mean) in
      if negb (Qle_bool std EPSILON) then (delta1s_ - mean) / std else 0
    else 0 in
  let cvdSlope_ := calculateSlope (cvdHistory c) in
  let vwap_ :=
    if negb (Qle_bool (totalVolume c) EPSILON)
    then totalNotional c / totalVolume c else 0 in
  let bestBidPrice := price_or_zero (bestBid ob) in
  let bestAskPrice := price_or_zero (bestAsk ob) in
  let midPrice := (bestBidPrice + bestAskPrice) / 2 in
  {| m_price := midPrice;
     obiWeighted := obiWeighted_;
     obiDeep := obiDeep_;
     obiDivergence := obiDivergence_;
     delta1s := delta1s_;
     delta5s := delta5s_;
     deltaZ := deltaZ_;
     m_cvdSession := cvdSession c;
     cvdSlope := cvdSlope_;
     vwap := vwap_;
     m_totalVolume := totalVolume c;
     m_totalNotional := totalNotional c;
     tradeCount := length (trades c) |}.

End WithSquareRoot.

Definition run (c : t) (ts : list LegacyTrade) : t :=
  fold_left (fun acc tr => addTrade tr acc) ts c.




(** The loop of [calcVolume] and the imbalance over binary64 numbers, for
    the sizes of a side given best price first. *)
Definition EPSILON64 : Binary64.number :=
  Eval vm_compute in Binary64.div Binary64.one (Binary64.of_Z (10 ^ 12)).

Definition calcVolume64 (sizes : list Binary64.number) (depth : nat)
  : Binary64.number :=
  fold_left Binary64.add (firstn (Nat.min depth (length sizes)) sizes)
            Binary64.zero.

Definition imbalance64 (bidVol askVol : Binary64.number) : Binary64.number :=
  let raw := Binary64.sub bidVol askVol in
  let denom := Binary64.add bidVol askVol in
  if Binary64.gtb denom EPSILON64 then Binary64.div raw denom else Binary64.zero.

(** The book of the test of the calculator: bids 100:10 and 99:5, asks
    101:7 and 102:3. *)
Definition level (price size : Z) : Level := (Q2Qc (inject_Z price), inject_Z size).

Definition test_book : OrderbookState :=
  {| bids := applyLevels ∅ [level 100 10; level 99 5];
     asks := applyLevels ∅ [level 101 7; level 102 3];
     lastUpdateId := 0 |}.


(** A bid of size 3 at 100 and an ask of size -1 at 101. *)
Definition negative_ask_book : OrderbookState :=
  {| bids := applyLevels ∅ [level 100 3];
     asks := applyLevels ∅ [level 101 (-1)];
     lastUpdateId := 0 |}.

(** The trades of the test of the calculator, the clock reading 100000. *)
Definition test_trades : list LegacyTrade :=
  [ mkLegacyTrade 99 3 buy 96000;
    mkLegacyTrade 100 2 buy 99500;
    mkLegacyTrade 101 1 sell 99600 ].


(** Timestamps in the order of the calls, none before an earlier one. *)
Definition chronological (ts : list LegacyTrade) : Prop :=
  StronglySorted Z.le (map timestamp ts).

(** The timestamp of the last trade of a list, 0 for no trade. *)
Definition last_timestamp (ts : list LegacyTrade) : Z :=
  List.last (map timestamp ts) 0%Z.


(** ** The rolling list of trades *)

Lemma shift_while_pushed {A : Type} (expired : A -> bool) (xs : list A) (x : A) :
  expired x = false ->
  exists first rest,
    shift_while expired (xs ++ [x]) = first :: rest /\
    expired first = false /\
    List.last (first :: rest) x = x.
Proof.
  intros Hx. induction xs as [|y xs IH].
  - exists x, []. simpl. rewrite Hx. repeat split.
  - simpl. destruct (expired y) eqn:Ey; [exact IH|].
    exists y, (xs ++ [x]). split; [reflexivity|]. split; [exact Ey|].
    exact (last_last (y :: xs) x x).
Qed.

Lemma shift_while_none {A : Type} (expired : A -> bool) (xs : list A) :
  List.Forall (fun x => expired x = false) xs -> shift_while expired xs = xs.
Proof.
  intros H. destruct H as [|x xs Hx _]; [reflexivity|].
  simpl. rewrite Hx. reflexivity.
Qed.

Lemma addTrade_keeps_fresh (trade : LegacyTrade) (c : t) :
  trades (addTrade trade c)
  = shift_while (fun tr => (timestamp tr <? timestamp trade - 10000)%Z)
                (trades c ++ [trade]).
Proof. reflexivity. Qed.

(** Trades that share one timestamp are all kept. *)
Lemma run_burst (trade : LegacyTrade) (n : nat) (c : t) :
  List.Forall (fun tr => timestamp tr = timestamp trade) (trades c) ->
  length (trades (run c (repeat trade n))) = (length (trades c) + n)%nat.
Proof.
  unfold run. revert c. induction n as [|n IH]; intros c Hc.
  - simpl. lia.
  - simpl.
    assert (Hsame : List.Forall (fun tr => timestamp tr = timestamp trade)
                      (trades c ++ [trade])).
    { apply List.Forall_app. split; [exact Hc|].
      constructor; [reflexivity | constructor]. }
    assert (Hkept : trades (addTrade trade c) = trades c ++ [trade]).
    { rewrite addTrade_keeps_fresh. apply shift_while_none.
      eapply List.Forall_impl; [|exact Hsame].
      intros tr Htr. simpl in Htr. apply Z.ltb_ge. lia. }
    rewrite IH by (rewrite Hkept; exact Hsame).
    rewrite Hkept, length_app. simpl. lia.
Qed.

(** ** Volumes at a depth *)

Lemma insert_level_Forall (P : Level -> Prop) (prec : Level -> Level -> bool)
    (x : Level) (l : list Level) :
  P x -> List.Forall P l -> List.Forall P (insert_level prec x l).
Proof.
  intros Hx Hl. induction Hl as [|y l Hy Hl IH]; simpl.
  - constructor; [exact Hx | constructor].
  - destruct (prec x y).
    + constructor; [exact Hx|]. constructor; assumption.
    + constructor; assumption.
Qed.

Lemma sort_levels_Forall (P : Level -> Prop) (prec : Level -> Level -> bool)
    (l : list Level) :
  List.Forall P l -> List.Forall P (sort_levels prec l).
Proof.
  unfold sort_levels. induction 1 as [|x l Hx Hl IH]; simpl.
  - constructor.
  - apply insert_level_Forall; assumption.
Qed.




(** ** The imbalance of two volumes *)






Example obi_test (sqrt : Q -> Q) (now : Z) :
  let m := computeMetrics sqrt now new test_book in
  obiWeighted m == 2 # 10 /\ obiDeep m == 2 # 10 /\ obiDivergence m == 0.
Proof. vm_compute. repeat split. Qed.

Example delta_vwap_cvd_test (sqrt : Q -> Q) :
  let m := computeMetrics sqrt 100000 (run new test_trades) test_book in
  delta1s m == 1 /\ delta5s m == 4 /\ vwap m == 598 / 6 /\ m_cvdSession m == 4.
Proof. vm_compute. repeat split. Qed.



(** The ranges need sizes that are not negative: with a bid of size 3 and
    an ask of size -1, [obiWeighted = (3 + 1) / (3 - 1) = 2]. *)
Lemma negative_size_out_of_range :
  obiWeighted (computeMetrics (fun x => x) 0 new negative_ask_book) == 2.
Proof. vm_compute. reflexivity. Qed.

(** The ranges need volumes that do not overflow: with one bid of size
    1.7e308 and two asks of size 1e308, all finite, the ask volume is
    [Infinity] in the arithmetic of the code, and [obiWeighted], [obiDeep]
    and their difference are [NaN]. *)
Lemma overflowing_volume_example :
  let bids := [Binary64.of_Z (17 * 10 ^ 307)] in
  let asks := [Binary64.of_Z (10 ^ 308); Binary64.of_Z (10 ^ 308)] in
  let obiWeighted := imbalance64 (calcVolume64 bids 10) (calcVolume64 asks 10) in
  let obiDeep := imbalance64 (calcVolume64 bids 50) (calcVolume64 asks 50) in
  List.forallb Binary64.isFinite (bids ++ asks) = true /\
  Binary64.isFinite (calcVolume64 asks 10) = false /\
  Binary64.isNaN obiWeighted = true /\
  Binary64.isNaN obiDeep = true /\
  Binary64.isNaN (Binary64.sub obiWeighted obiDeep) = true.
Proof. vm_compute. repeat split. Qed.

(** ** The capped histories *)

Lemma push_capped_length {A : Type} (cap : nat) (x : A) (xs : list A) :
  (length xs <= cap)%nat ->
  length (push_capped cap x xs) = Nat.min (S (length xs)) cap.
Proof.
  intros Hle. unfold push_capped. cbv zeta.
  assert (Hlen : length (xs ++ [x]) = S (length xs))
    by (rewrite length_app; cbn [length]; lia).
  destruct (Nat.ltb_spec cap (length (xs ++ [x]))) as [Hlt | Hge]; [|lia].
  destruct xs as [|y ys]; cbn [app tl length] in *; [lia|].
  rewrite length_app in *. cbn [length] in *. lia.
Qed.

Lemma run_histories (ts : list LegacyTrade) (c : t) :
  (length (deltaHistory c) <= 60)%nat ->
  (length (cvdHistory c) <= 60)%nat ->
  (length (volumeHistory c) <= 100)%nat ->
  length (deltaHistory (run c ts)) = Nat.min (length (deltaHistory c) + length ts) 60 /\
  length (cvdHistory (run c ts)) = Nat.min (length (cvdHistory c) + length ts) 60 /\
  length (volumeHistory (run c ts)) = Nat.min (length (volumeHistory c) + length ts) 100.
Proof.
  unfold run. revert c. induction ts as [|tr ts IH]; intros c Hd Hc Hv.
  - simpl. repeat split; lia.
  - cbn [fold_left length].
    assert (Hd' := push_capped_length 60
                     (delta_since (timestamp tr - 1000) (trades (addTrade tr c)))
                     (deltaHistory c) Hd).
    assert (Hc' := push_capped_length 60 (cvdSession c + signed tr) (cvdHistory c) Hc).
    assert (Hv' := push_capped_length 100 (quantity tr) (volumeHistory c) Hv).
    change (length (deltaHistory (addTrade tr c))
            = Nat.min (S (length (deltaHistory c))) 60) in Hd'.
    change (length (cvdHistory (addTrade tr c))
            = Nat.min (S (length (cvdHistory c))) 60) in Hc'.
    change (length (volumeHistory (addTrade tr c))
            = Nat.min (S (length (volumeHistory c))) 100) in Hv'.
    destruct (IH (addTrade tr c)) as (H1 & H2 & H3); [lia | lia | lia |].
    rewrite H1, H2, H3, Hd', Hc', Hv'. repeat split; lia.
Qed.

(** X12.  After any sequence of [addTrade] calls on a new calculator the
    histories of [delta1s] and of the session CVD hold the last 60 values
    and the history of volumes the last 100: their lengths are
    [min(n, 60)], [min(n, 60)] and [min(n, 100)] for [n] calls. *)
Theorem histories_capped (ts : list LegacyTrade) :
  length (deltaHistory (run new ts)) = Nat.min (length ts) 60 /\
  length (cvdHistory (run new ts)) = Nat.min (length ts) 60 /\
  length (volumeHistory (run new ts)) = Nat.min (length ts) 100.
Proof.
  apply (run_histories ts new); simpl; lia.
Qed.

(** ** The session totals *)



Lemma run_session (ts : list LegacyTrade) (c : t) :
  cvdSession (run c ts)
  = fold_left (fun acc tr => acc + signed tr) ts (cvdSession c) /\
  totalVolume (run c ts)
  = fold_left (fun acc tr => acc + quantity tr) ts (totalVolume c) /\
  totalNotional (run c ts)
  = fold_left (fun acc tr => acc + quantity tr * price tr) ts (totalNotional c).
Proof.
  unfold run. revert c. induction ts as [|tr ts IH]; intros c.
  - repeat split.
  - cbn [fold_left]. destruct (IH (addTrade tr c)) as (H1 & H2 & H3).
    rewrite H1, H2, H3. repeat split.
Qed.

(** X13.  Whatever the rolling list has dropped since, after any sequence
    of [addTrade] calls on a new calculator the session totals are the
    running sums over all the trades, each added in the order of the
    calls: [cvdSession] of the signed quantities, [totalVolume] of the
    quantities and [totalNotional] of [quantity * price]. *)
Theorem session_totals (ts : list LegacyTrade) :
  cvdSession (run new ts) = fold_left (fun acc tr => acc + signed tr) ts 0 /\
  totalVolume (run new ts) = fold_left (fun acc tr => acc + quantity tr) ts 0 /\
  totalNotional (run new ts)
  = fold_left (fun acc tr => acc + quantity tr * price tr) ts 0.
Proof. exact (run_session ts new). Qed.

(** ** The sort of the levels *)

Lemma insert_level_perm (prec : Level -> Level -> bool) (x : Level) (l : list Level) :
  Permutation (x :: l) (insert_level prec x l).
Proof.
  induction l as [|y l IH]; simpl; [reflexivity|].
  destruct (prec x y); [reflexivity|].
  rewrite perm_swap. apply perm_skip. exact IH.
Qed.

Lemma sort_levels_perm (prec : Level -> Level -> bool) (l : list Level) :
  Permutation l (sort_levels prec l).
Proof.
  unfold sort_levels. induction l as [|x l IH]; simpl; [reflexivity|].
  rewrite <- insert_level_perm. apply perm_skip. exact IH.
Qed.

Lemma insert_level_sorted (prec : Level -> Level -> bool) (x : Level) (l : list Level) :
  (forall a b, prec a b = false -> prec b a = true) ->
  Sorted (fun a b => prec a b = true) l ->
  Sorted (fun a b => prec a b = true) (insert_level prec x l).
Proof.
  intros Htotal Hs. induction Hs as [|y l Hs IH Hhd]; simpl.
  - repeat constructor.
  - destruct (prec x y) eqn:E.
    + constructor; [constructor; assumption|]. constructor. exact E.
    + constructor; [exact IH|].
      destruct Hhd as [|z l' Hyz]; simpl.
      * constructor. apply Htotal. exact E.
      * destruct (prec x z); constructor; [apply Htotal; exact E | exact Hyz].
Qed.

Lemma precedes_total (isAsk : bool) (a b : Level) :
  precedes isAsk a b = false -> precedes isAsk b a = true.
Proof.
  unfold precedes. destruct isAsk; intros H;
    apply JsNumber.Qle_bool_false in H; apply Qle_bool_iff; lra.
Qed.

(** X15.  The sort that [calcVolume] applies to the entries of a side
    returns a permutation of them in price order: prices never decrease
    along the asks and never increase along the bids. *)
Theorem sort_levels_sorts (isAsk : bool) (entries : list Level) :
  Permutation entries (sort_levels (precedes isAsk) entries) /\
  Sorted (fun a b : Level => if isAsk then (a.1 <= b.1)%Q else (b.1 <= a.1)%Q)
         (sort_levels (precedes isAsk) entries).
Proof.
  split; [apply sort_levels_perm|].
  assert (Hs : Sorted (fun a b => precedes isAsk a b = true)
                      (sort_levels (precedes isAsk) entries)).
  { unfold sort_levels. induction entries as [|x l IH]; simpl; [constructor|].
    apply insert_level_sorted; [apply precedes_total | exact IH]. }
  induction Hs as [|y l Hs IH Hhd]; constructor; [exact IH|].
  destruct Hhd as [|z l' Hyz]; constructor.
  unfold precedes in Hyz. destruct isAsk; apply Qle_bool_iff; exact Hyz.
Qed.

(** ** Volumes at two depths *)

Lemma sort_levels_length (prec : Level -> Level -> bool) (l : list Level) :
  length (sort_levels prec l) = length l.
Proof.
  symmetry. apply Permutation_length. apply sort_levels_perm.
Qed.

Lemma calcVolume_whole_side (levels : gmap Qc Q) (depth : nat) (isAsk : bool) :
  (size levels <= depth)%nat ->
  calcVolume levels depth isAsk
  = fold_left (fun vol (entry : Level) => vol + entry.2)
              (sort_levels (precedes isAsk) (map_to_list levels)) 0.
Proof.
  intros Hsize. unfold calcVolume.
  assert (Hlen : length (sort_levels (precedes isAsk) (map_to_list levels))
                 = size levels).
  { rewrite sort_levels_length. apply length_map_to_list. }
  rewrite Hlen, Nat.min_r by exact Hsize.
  rewrite firstn_all2 by lia. reflexivity.
Qed.

(** X16.  When neither side of the book has more than 10 levels the deep
    imbalance reads the volumes the weighted one reads: at depth 50 each
    side gives the sum it gives at depth 10, term for term, so [obiDeep] is
    the number [obiWeighted] is, and [obiDivergence] is that number minus
    itself. *)
Theorem shallow_book_has_no_divergence
    (sqrt : Q -> Q) (now : Z) (c : t) (ob : OrderbookState) :
  (size (bids ob) <= 10)%nat -> (size (asks ob) <= 10)%nat ->
  calcVolume (bids ob) 50 false = calcVolume (bids ob) 10 false /\
  calcVolume (asks ob) 50 true = calcVolume (asks ob) 10 true /\
  obiDeep (computeMetrics sqrt now c ob) = obiWeighted (computeMetrics sqrt now c ob) /\
  obiDivergence (computeMetrics sqrt now c ob)
  = obiWeighted (computeMetrics sqrt now c ob)
    - obiWeighted (computeMetrics sqrt now c ob).
Proof.
  intros Hb Ha.
  assert (Hbids : calcVolume (bids ob) 50 false = calcVolume (bids ob) 10 false).
  { rewrite (calcVolume_whole_side (bids ob) 10 false Hb).
    apply calcVolume_whole_side. lia. }
  assert (Hasks : calcVolume (asks ob) 50 true = calcVolume (asks ob) 10 true).
  { rewrite (calcVolume_whole_side (asks ob) 10 true Ha).
    apply calcVolume_whole_side. lia. }
  split; [exact Hbids|]. split; [exact Hasks|].
  unfold computeMetrics. cbn [obiDeep obiWeighted obiDivergence].
  rewrite Hbids, Hasks. split; reflexivity.
Qed.

Lemma shallow_book_has_no_divergence_witness :
  (size (bids test_book) <= 10)%nat /\ (size (asks test_book) <= 10)%nat /\
  obiDeep (computeMetrics (fun x => x) 0 new test_book)
  = obiWeighted (computeMetrics (fun x => x) 0 new test_book).
Proof.
  assert (Hb : (size (bids test_book) <= 10)%nat) by (vm_compute; lia).
  assert (Ha : (size (asks test_book) <= 10)%nat) by (vm_compute; lia).
  split; [exact Hb|]. split; [exact Ha|].
  exact (proj1 (proj2 (proj2
           (shallow_book_has_no_divergence (fun x => x) 0 new test_book Hb Ha)))).
Defined.

Lemma volume_not_below_acc (l : list Level) (acc : Q) :
  List.Forall (fun entry : Level => 0 <= entry.2) l ->
  acc <= fold_left (fun vol (entry : Level) => vol + entry.2) l acc.
Proof.
  intros Hl. revert acc. induction Hl as [|x l Hx Hl IH]; intros acc; simpl.
  - lra.
  - eapply Qle_trans; [|apply IH]. lra.
Qed.

Lemma volume_firstn_mono (l : list Level) (d1 d2 : nat) (acc : Q) :
  List.Forall (fun entry : Level => 0 <= entry.2) l -> (d1 <= d2)%nat ->
  fold_left (fun vol (entry : Level) => vol + entry.2) (firstn d1 l) acc
  <= fold_left (fun vol (entry : Level) => vol + entry.2) (firstn d2 l) acc.
Proof.
  intros Hl. revert d1 d2 acc.
  induction Hl as [|x l Hx Hl IH]; intros d1 d2 acc Hd.
  - rewrite !firstn_nil. lra.
  - destruct d1 as [|d1]; destruct d2 as [|d2]; try lia; simpl.
    + lra.
    + eapply Qle_trans; [|apply volume_not_below_acc; apply Forall_take; exact Hl].
      lra.
    + apply IH. lia.
Qed.

(** X17.  With sizes that are not negative, the volume at a depth grows
    with the depth: the volumes behind [obiDeep] (50 levels) are at least
    those behind [obiWeighted] (10 levels), and a depth beyond the number
    of levels adds nothing. *)
Theorem calcVolume_grows_with_depth
    (levels : gmap Qc Q) (d1 d2 : nat) (isAsk : bool) :
  map_Forall (fun (_ : Qc) (size : Q) => 0 <= size) levels ->
  (d1 <= d2)%nat ->
  calcVolume levels d1 isAsk <= calcVolume levels d2 isAsk /\
  ((size levels <= d1)%nat ->
   calcVolume levels d1 isAsk = calcVolume levels d2 isAsk).
Proof.
  intros Hlev Hd. split.
  - unfold calcVolume.
    set (entries := sort_levels (precedes isAsk) (map_to_list levels)).
    apply volume_firstn_mono; [|lia].
    subst entries. apply sort_levels_Forall.
    apply map_Forall_to_list in Hlev.
    apply List.Forall_forall. intros [p s] Hin.
    rewrite Forall_forall in Hlev. apply list_elem_of_In in Hin.
    exact (Hlev _ Hin).
  - intros Hsize.
    rewrite (calcVolume_whole_side levels d1 isAsk Hsize).
    rewrite (calcVolume_whole_side levels d2 isAsk) by lia. reflexivity.
Qed.

Lemma calcVolume_grows_with_depth_witness :
  map_Forall (fun (_ : Qc) (size : Q) => 0 <= size) (bids test_book) /\
  (10 <= 50)%nat /\
  calcVolume (bids test_book) 10 false <= calcVolume (bids test_book) 50 false.
Proof.
  assert (H : map_Forall (fun (_ : Qc) (size : Q) => 0 <= size) (bids test_book)).
  { apply map_Forall_to_list; vm_compute;
      repeat (constructor; [discriminate|]); constructor. }
  assert (Hd : (10 <= 50)%nat) by lia.
  split; [exact H|]. split; [exact Hd|].
  exact (proj1 (calcVolume_grows_with_depth (bids test_book) 10 50 false H Hd)).
Defined.
(** ** Trades that arrive in the order of their timestamps *)














End LegacyCalculator.

(* ===================================================================== *)
(** * The rolling trade windows of the two calculators *)
(* ===================================================================== *)

Module RollingWindows.

(** A burst: the same trade, timestamp 0, 10001 times. *)
Definition burst_size : nat := Z.to_nat 10001.

Definition burst_event : CvdCalculator.TradeEvent :=
  CvdCalculator.mkTradeEvent 100 1 CvdCalculator.buy 0.

Definition burst_trade : LegacyCalculator.LegacyTrade :=
  LegacyCalculator.mkLegacyTrade 100 1 LegacyCalculator.buy 0.

(** C7 (amended).  The rolling trade lists are bounded by age: after a
    call [addTrade(event)] of the CvdCalculator, every entry
    of the list of each configured timeframe has
    [timestamp >= event.timestamp - durationMs]; after a call
    [addTrade(trade)] of the LegacyCalculator its list is not empty, ends
    with [trade], and starts with an entry of
    [timestamp >= trade.timestamp - 10000]. *)
Theorem windows_bounded_by_age
    (timeframes : list (string * Z)) (calls : list (Z * CvdCalculator.TradeEvent))
    (arrival : Z) (event : CvdCalculator.TradeEvent) (tf : string) (ms : Z)
    (legacy : LegacyCalculator.t) (trade : LegacyCalculator.LegacyTrade) :
  In (tf, ms) (CvdCalculator.windows (CvdCalculator.new timeframes)) ->
  List.Forall
    (fun t => (CvdCalculator.timestamp event - ms <= CvdCalculator.s_timestamp t)%Z)
    (CvdCalculator.trades
       (CvdCalculator.addTrade arrival event
          (CvdCalculator.run (CvdCalculator.new timeframes) calls)) !!! tf) /\
  exists first rest,
    LegacyCalculator.trades (LegacyCalculator.addTrade trade legacy) = first :: rest /\
    (LegacyCalculator.timestamp trade - 10000 <= LegacyCalculator.timestamp first)%Z /\
    List.last (first :: rest) trade = trade.
Proof.
  intros Hin. split.
  - rewrite (CvdCalculator.addTrade_trades timeframes calls arrival event tf ms Hin).
    apply (CvdCalculator.evict_age_bound ms _ (arrival, event)).
  - rewrite LegacyCalculator.addTrade_keeps_fresh.
    destruct (LegacyCalculator.shift_while_pushed
                (fun tr => (LegacyCalculator.timestamp tr
                            <? LegacyCalculator.timestamp trade - 10000)%Z)
                (LegacyCalculator.trades legacy) trade)
      as (first & rest & Heq & Hfresh & Hlast).
    { apply Z.ltb_ge. lia. }
    exists first, rest. split; [exact Heq|]. split; [|exact Hlast].
    apply Z.ltb_ge in Hfresh. exact Hfresh.
Qed.

Lemma windows_bounded_by_age_witness :
  In ("1m"%string, 60000%Z)
     (CvdCalculator.windows (CvdCalculator.new CvdCalculator.default_timeframes)) /\
  List.Forall
    (fun t => (70100 - 60000 <= CvdCalculator.s_timestamp t)%Z)
    (CvdCalculator.trades
       (CvdCalculator.addTrade 70105 (CvdCalculator.mkTradeEvent 101 1 CvdCalculator.sell 70100)
          (CvdCalculator.run (CvdCalculator.new CvdCalculator.default_timeframes)
             [ (5%Z, CvdCalculator.mkTradeEvent 99 3 CvdCalculator.buy 0) ]))
     !!! "1m"%string).
Proof.
  assert (H : In ("1m"%string, 60000%Z)
                (CvdCalculator.windows
                   (CvdCalculator.new CvdCalculator.default_timeframes)))
    by (left; reflexivity).
  split; [exact H|].
  exact (proj1 (windows_bounded_by_age CvdCalculator.default_timeframes
                  [ (5%Z, CvdCalculator.mkTradeEvent 99 3 CvdCalculator.buy 0) ]
                  70105 (CvdCalculator.mkTradeEvent 101 1 CvdCalculator.sell 70100)
                  "1m"%string 60000 LegacyCalculator.new burst_trade H)).
Defined.

(** C7, as stated, fails under a burst: no code of either calculator
    counts entries ([MAX_TRADES_WINDOW] is read nowhere), so after 10001
    trades with one timestamp the one-minute list of the CvdCalculator and
    the list of the LegacyCalculator each hold 10001 entries. *)
Lemma burst_counterexample :
  (10000 <
   Z.of_nat (length (CvdCalculator.trades
                       (CvdCalculator.run
                          (CvdCalculator.new CvdCalculator.default_timeframes)
                          (repeat (0%Z, burst_event) burst_size))
                     !!! "1m"%string)))%Z /\
  (10000 <
   Z.of_nat (length (LegacyCalculator.trades
                       (LegacyCalculator.run LegacyCalculator.new
                          (repeat burst_trade burst_size)))))%Z.
Proof.
  split.
  - rewrite (CvdCalculator.run_trades _ _ "1m"%string 60000%Z)
      by (left; reflexivity).
    rewrite (CvdCalculator.fold_evict_burst 60000 (0%Z, burst_event) burst_size [])
      by (try lia; constructor).
    unfold burst_size. simpl length. rewrite Nat.add_0_l, Z2Nat.id; lia.
  - rewrite (LegacyCalculator.run_burst burst_trade burst_size LegacyCalculator.new)
      by constructor.
    unfold burst_size. simpl length. rewrite Nat.add_0_l, Z2Nat.id; lia.
Qed.

End RollingWindows.

(* ===================================================================== *)
(** * OpenInterestMonitor: polled open interest and its 60 s change *)
(* ===================================================================== *)

(** Calls are taken one at a time ([step], [run]).  What the asynchronous
    [updateOpenInterest] does when another call comes in while its request
    is in flight is given by its two parts, [throttled] and [settle]. *)
Module OpenInterestMonitor.

Import JsNumber.
#[local] Open Scope Z_scope.

Inductive Source : Type := real | mock.

Record OpenInterestMetrics : Type := mkMetrics {
  openInterest : number;
  oiChangeAbs : number;
  oiChangePct : number;
  oiDeltaWindow : number;
  lastUpdated : Z;
  source : Source
}.

(** An entry of [oiHistory]. *)
Record Sample : Type := mkSample { value : number; timestamp : Z }.

(** The object, without its set of listeners: what a call emits to them is
    returned by the call. *)
Record t : Type := mk {
  symbol : string;
  currentOI : number;
  previousOI : number;
  baselineOI : number;
  oiHistory : list Sample;
  lastFetchTime : Z;
  lastBaselineUpdate : Z
}.

Definition FETCH_INTERVAL_MS : Z := 10000.
Definition WINDOW_MS : Z := 60000.

Definition new (symbol : string) : t :=
  {| symbol := symbol; currentOI := zero; previousOI := zero; baselineOI := zero;
     oiHistory := []; lastFetchTime := 0; lastBaselineUpdate := 0 |}.

(** The local [baseline] of [buildMetrics]:
    [oiHistory.find(h => h.timestamp >= windowStart) || oiHistory[0]], and
    [currentOI] when that is [undefined]. *)
Definition baseline_at (now : Z) (c : t) : number :=
  let windowStart := now - WINDOW_MS in
  let baselineItem :=
    match List.find (fun h => windowStart <=? timestamp h) (oiHistory c) with
    | Some item => Some item
    | None => head (oiHistory c)
    end in
  match baselineItem with
  | Some item => value item
  | None => currentOI c
  end.

(** [buildMetrics(source)], [now] being the clock at the call. *)
Definition buildMetrics (source : Source) (now : Z) (c : t) : OpenInterestMetrics :=
  let baseline := baseline_at now c in
  let oiDeltaWindow_ := sub (currentOI c) baseline in
  let oiChangePct_ :=
    if gtb baseline zero
    then mul (div oiDeltaWindow_ baseline) (Fin 100)
    else zero in
  {| openInterest := currentOI c;
     oiChangeAbs := oiDeltaWindow_;
     oiChangePct := oiChangePct_;
     oiDeltaWindow := oiDeltaWindow_;
     lastUpdated := if lastFetchTime c =? 0 then now else lastFetchTime c;
     source := source |}.


(** What the request of [updateOpenInterest] comes back with. *)
Inductive FetchOutcome : Type :=
  | Threw
  | NotOk (status : Z)
  | Body (parsed : number).

Fixpoint shift_while (expired : Sample -> bool) (xs : list Sample) : list Sample :=
  match xs with
  | [] => []
  | x :: rest => if expired x then shift_while expired rest else xs
  end.

(** [updateOpenInterest()]: [now] is the clock at the call, [outcome] what
    the request returns, [emitted_at] the clock when the update is emitted.
    The result is the object and the metrics sent to the listeners. *)
Definition updateOpenInterest (now : Z) (outcome : FetchOutcome) (emitted_at : Z)
    (c : t) : t * option OpenInterestMetrics :=
  if (now - lastFetchTime c <? FETCH_INTERVAL_MS) && gtb (currentOI c) zero
  then (c, None)
  else
    match outcome with
    | Threw => (c, None)
    | NotOk _ => (c, None)
    | Body newVal =>
        if negb (isNaN newVal) && gtb newVal zero then
          let first := eqb (currentOI c) zero in
          let baselineOI1 := if first then newVal else baselineOI c in
          let lastBaselineUpdate1 := if first then now else lastBaselineUpdate c in
          let previousOI_ := if gtb (currentOI c) zero then currentOI c else newVal in
          let history1 := oiHistory c ++ [mkSample newVal now] in
          let windowStart := now - WINDOW_MS in
          let baselineRecord :=
            if WINDOW_MS <=? now - lastBaselineUpdate1
            then List.find (fun h => windowStart <=? timestamp h) history1
            else None in
          let baselineOI2 :=
            match baselineRecord with Some r => value r | None => baselineOI1 end in
          let lastBaselineUpdate2 :=
            match baselineRecord with Some _ => now | None => lastBaselineUpdate1 end in
          let cutoff := now - 300000 in
          let history2 := shift_while (fun h => timestamp h <? cutoff) history1 in
          let c1 := {| symbol := symbol c;
                       currentOI := newVal;
                       previousOI := previousOI_;
                       baselineOI := baselineOI2;
                       oiHistory := history2;
                       lastFetchTime := lastFetchTime c;
                       lastBaselineUpdate := lastBaselineUpdate2 |} in
          let metrics := buildMetrics real emitted_at c1 in
          ({| symbol := symbol c1;
              currentOI := currentOI c1;
              previousOI := previousOI c1;
              baselineOI := baselineOI c1;
              oiHistory := oiHistory c1;
              lastFetchTime := now;
              lastBaselineUpdate := lastBaselineUpdate c1 |},
           Some metrics)
        else (c, None)
    end.

(** [updateOpenInterest] in the two parts its awaits cut it into.  The
    first reads the clock and tests the throttle on the object as it is at
    the call.  The second, everything after the last [await], runs without
    interruption on the object as it is when the response has arrived,
    which other calls may have changed in between; [now] is still the
    clock reading of the first part. *)
Definition throttled (now : Z) (c : t) : bool :=
  (now - lastFetchTime c <? FETCH_INTERVAL_MS) && gtb (currentOI c) zero.

Definition settle (now : Z) (outcome : FetchOutcome) (emitted_at : Z) (c : t)
  : t * option OpenInterestMetrics :=
  match outcome with
  | Threw => (c, None)
  | NotOk _ => (c, None)
  | Body newVal =>
      if negb (isNaN newVal) && gtb newVal zero then
        let first := eqb (currentOI c) zero in
        let baselineOI1 := if first then newVal else baselineOI c in
        let lastBaselineUpdate1 := if first then now else lastBaselineUpdate c in
        let previousOI_ := if gtb (currentOI c) zero then currentOI c else newVal in
        let history1 := oiHistory c ++ [mkSample newVal now] in
        let windowStart := now - WINDOW_MS in
        let baselineRecord :=
          if WINDOW_MS <=? now - lastBaselineUpdate1
          then List.find (fun h => windowStart <=? timestamp h) history1
          else None in
        let baselineOI2 :=
          match baselineRecord with Some r => value r | None => baselineOI1 end in
        let lastBaselineUpdate2 :=
          match baselineRecord with Some _ => now | None => lastBaselineUpdate1 end in
        let cutoff := now - 300000 in
        let history2 := shift_while (fun h => timestamp h <? cutoff) history1 in
        let c1 := {| symbol := symbol c;
                     currentOI := newVal;
                     previousOI := previousOI_;
                     baselineOI := baselineOI2;
                     oiHistory := history2;
                     lastFetchTime := lastFetchTime c;
                     lastBaselineUpdate := lastBaselineUpdate2 |} in
        let metrics := buildMetrics real emitted_at c1 in
        ({| symbol := symbol c1;
            currentOI := currentOI c1;
            previousOI := previousOI c1;
            baselineOI := baselineOI c1;
            oiHistory := oiHistory c1;
            lastFetchTime := now;
            lastBaselineUpdate := lastBaselineUpdate c1 |},
         Some metrics)
      else (c, None)
  end.

(** [update(openInterest)], the mock feed. *)
Definition update (openInterest_ : number) (now : Z) (emitted_at : Z) (c : t)
  : t * option OpenInterestMetrics :=
  if negb (isFinite openInterest_) || ltb openInterest_ zero then (c, None)
  else
    let c1 := {| symbol := symbol c;
                 currentOI := openInterest_;
                 previousOI := if gtb (currentOI c) zero then currentOI c else openInterest_;
                 baselineOI := if eqb (currentOI c) zero then openInterest_ else baselineOI c;
                 oiHistory := oiHistory c ++ [mkSample openInterest_ now];
                 lastFetchTime := now;
                 lastBaselineUpdate := lastBaselineUpdate c |} in
    (c1, Some (buildMetrics mock emitted_at c1)).

(** A call that changes the object and runs to its end before the next
    call begins: for [updateOpenInterest], no other call comes in while
    its request is in flight. *)
Inductive Call : Type :=
  | CallUpdateOpenInterest (now : Z) (outcome : FetchOutcome) (emitted_at : Z)
  | CallUpdate (openInterest_ : number) (now : Z) (emitted_at : Z).

Definition call_time (call : Call) : Z :=
  match call with
  | CallUpdateOpenInterest now _ _ => now
  | CallUpdate _ now _ => now
  end.

Definition step (c : t) (call : Call) : t :=
  match call with
  | CallUpdateOpenInterest now outcome emitted_at =>
      (updateOpenInterest now outcome emitted_at c).1
  | CallUpdate v now emitted_at => (update v now emitted_at c).1
  end.

Definition run (c : t) (calls : list Call) : t := fold_left step calls c.

(** The clock does not run backwards from one call to the next. *)
Fixpoint clock_monotone (prev : Z) (calls : list Call) : Prop :=
  match calls with
  | [] => True
  | call :: rest => prev <= call_time call /\ clock_monotone (call_time call) rest
  end.

(** Timestamps never decrease along the history, and none is after [now]. *)
Fixpoint history_sorted (samples : list Sample) (now : Z) : Prop :=
  match samples with
  | [] => True
  | s :: rest =>
      timestamp s <= now /\
      List.Forall (fun h => timestamp s <= timestamp h) rest /\
      history_sorted rest now
  end.

(** [item] is the oldest sample of the history with
    [timestamp >= now - 60000]. *)
Definition oldest_in_window (now : Z) (c : t) (item : Sample) : Prop :=
  In item (oiHistory c) /\
  now - WINDOW_MS <= timestamp item /\
  forall h, In h (oiHistory c) -> now - WINDOW_MS <= timestamp h ->
            timestamp item <= timestamp h.

Definition chronological (calls : list Call) : Prop :=
  match calls with
  | [] => True
  | call :: rest => clock_monotone (call_time call) rest
  end.

(** Two mock updates, the clock of the second before that of the first. *)
Definition clock_back_calls : list Call :=
  [ CallUpdate (Fin 1) 100000 100000; CallUpdate (Fin 2) 50000 50000 ].



(** The current value is a number that is not negative, as is every value
    of the history, and it is the value of the newest sample. *)
Definition consistent (c : t) : Prop :=
  geb (currentOI c) zero = true /\
  List.Forall (fun h => geb (value h) zero = true) (oiHistory c) /\
  currentOI c = List.last (map value (oiHistory c)) zero.

(** ** The history stays in the order of the clock *)

Lemma history_sorted_later (samples : list Sample) (now later : Z) :
  history_sorted samples now -> now <= later -> history_sorted samples later.
Proof.
  induction samples as [|s rest IH]; intros H Hle; [exact I|].
  destruct H as (Hs & Hrest & Hsorted). simpl. repeat split.
  - lia.
  - exact Hrest.
  - apply IH; assumption.
Qed.

Lemma history_sorted_push (samples : list Sample) (now later : Z) (v : number) :
  history_sorted samples now -> now <= later ->
  history_sorted (samples ++ [mkSample v later]) later.
Proof.
  induction samples as [|s rest IH]; intros H Hle.
  - simpl. repeat split; [lia | constructor].
  - destruct H as (Hs & Hrest & Hsorted). simpl. repeat split.
    + lia.
    + apply List.Forall_app. split; [exact Hrest|].
      constructor; [simpl; lia | constructor].
    + apply IH; assumption.
Qed.

Lemma history_sorted_shift (expired : Sample -> bool) (samples : list Sample)
    (now : Z) :
  history_sorted samples now -> history_sorted (shift_while expired samples) now.
Proof.
  induction samples as [|s rest IH]; intros H; [exact I|].
  simpl. destruct (expired s); [|exact H].
  apply IH. destruct H as (_ & _ & H). exact H.
Qed.

Lemma step_sorted (c : t) (call : Call) (prev : Z) :
  history_sorted (oiHistory c) prev -> prev <= call_time call ->
  history_sorted (oiHistory (step c call)) (call_time call).
Proof.
  intros Hs Hle.
  pose proof (history_sorted_later _ _ _ Hs Hle) as Hs'.
  destruct call as [now outcome emitted_at | v now emitted_at]; simpl in *.
  - unfold updateOpenInterest.
    destruct ((now - lastFetchTime c <? FETCH_INTERVAL_MS) && gtb (currentOI c) zero);
      [exact Hs'|].
    destruct outcome as [| status | newVal]; try exact Hs'.
    destruct (negb (isNaN newVal) && gtb newVal zero); [|exact Hs'].
    simpl. apply history_sorted_shift.
    apply (history_sorted_push _ prev); assumption.
  - unfold update.
    destruct (negb (isFinite v) || ltb v zero); [exact Hs'|].
    simpl. apply (history_sorted_push _ prev); assumption.
Qed.

Lemma run_sorted (calls : list Call) (c : t) (prev : Z) :
  history_sorted (oiHistory c) prev -> clock_monotone prev calls ->
  exists last, history_sorted (oiHistory (run c calls)) last.
Proof.
  unfold run. revert c prev.
  induction calls as [|call rest IH]; intros c prev Hs Hmono.
  - exists prev. exact Hs.
  - destruct Hmono as [Hle Hrest]. simpl.
    apply (IH (step c call) (call_time call)); [|exact Hrest].
    apply (step_sorted c call prev); assumption.
Qed.

Lemma reachable_sorted (symbol : string) (calls : list Call) :
  chronological calls ->
  exists last, history_sorted (oiHistory (run (new symbol) calls)) last.
Proof.
  intros Hc. destruct calls as [|call rest].
  - exists 0. exact I.
  - apply (run_sorted (call :: rest) (new symbol) (call_time call)).
    + exact I.
    + simpl. split; [lia | exact Hc].
Qed.

(** ** The sample [find] returns *)

Lemma find_oldest (samples : list Sample) (last windowStart : Z) (item : Sample) :
  history_sorted samples last ->
  List.find (fun h => windowStart <=? timestamp h) samples = Some item ->
  In item samples /\
  windowStart <= timestamp item /\
  forall h, In h samples -> windowStart <= timestamp h ->
            timestamp item <= timestamp h.
Proof.
  induction samples as [|s rest IH]; intros Hs Hfind; [discriminate|].
  destruct Hs as (_ & Hrest & Hsorted). simpl in Hfind.
  destruct (windowStart <=? timestamp s) eqn:E.
  - inversion Hfind; subst item. apply Z.leb_le in E.
    split; [left; reflexivity|]. split; [exact E|].
    intros h [-> | Hin] _; [lia|].
    rewrite List.Forall_forall in Hrest. exact (Hrest _ Hin).
  - apply Z.leb_gt in E.
    destruct (IH Hsorted Hfind) as (Hin & Hw & Hmin).
    split; [right; exact Hin|]. split; [exact Hw|].
    intros h [-> | Hh] Hwh; [lia|]. exact (Hmin _ Hh Hwh).
Qed.

Lemma find_none_older (samples : list Sample) (windowStart : Z) :
  List.find (fun h => windowStart <=? timestamp h) samples = None ->
  forall h, In h samples -> timestamp h < windowStart.
Proof.
  intros Hfind h Hin.
  pose proof (List.find_none _ _ Hfind h Hin) as H. simpl in H.
  apply Z.leb_gt in H. exact H.
Qed.

(** With the history in the order of its timestamps, the change is
    measured against the oldest sample of the last 60 s when there is
    one: [oiChangeAbs = currentOI - baseline],
    [oiDeltaWindow = oiChangeAbs], and
    [oiChangePct = (currentOI - baseline) / baseline * 100] when
    [baseline > 0] and [0] when [baseline <= 0]. *)
Lemma change_against_oldest_in_window
    (c : t) (src : Source) (now last : Z) :
  history_sorted (oiHistory c) last ->
  let m := buildMetrics src now c in
  let baseline := baseline_at now c in
  oiChangeAbs m = sub (currentOI c) baseline /\
  oiDeltaWindow m = oiChangeAbs m /\
  (gtb baseline zero = true ->
   oiChangePct m = mul (div (sub (currentOI c) baseline) baseline) (Fin 100)) /\
  (leb baseline zero = true -> oiChangePct m = zero) /\
  ((exists h, In h (oiHistory c) /\ now - WINDOW_MS <= timestamp h) ->
   exists item, oldest_in_window now c item /\ baseline = value item).
Proof.
  intros Hsorted m baseline.
  split; [reflexivity|]. split; [reflexivity|]. split; [|split].
  - intros Hpos. subst m. unfold buildMetrics. simpl.
    fold baseline. rewrite Hpos. reflexivity.
  - intros Hle. subst m. unfold buildMetrics. simpl.
    fold baseline. rewrite (leb_gtb_false _ _ Hle). reflexivity.
  - intros (h & Hin & Hw).
    subst baseline. unfold baseline_at.
    destruct (List.find (fun h0 => now - WINDOW_MS <=? timestamp h0) (oiHistory c))
      as [item|] eqn:Hfind.
    + exists item. split; [|reflexivity].
      exact (find_oldest _ _ _ _ Hsorted Hfind).
    + pose proof (find_none_older _ _ Hfind h Hin). lia.
Qed.


(** The order of the clock is needed for "oldest": if the clock runs back
    between two calls, [find] still returns the sample recorded first. *)
Lemma clock_running_back_example :
  ~ chronological clock_back_calls /\
  baseline_at 100000 (run (new "BTCUSDT") clock_back_calls) = Fin 1 /\
  oldest_in_window 100000 (run (new "BTCUSDT") clock_back_calls)
                   (mkSample (Fin 2) 50000).
Proof.
  split; [simpl; lia|]. split; [reflexivity|].
  split; [right; left; reflexivity|]. split; [vm_compute; discriminate|].
  intros h [<- | [<- | []]] _; simpl; lia.
Qed.

(** ** The two parts of a poll *)

(** A poll that nothing interrupts is its two parts one after the other. *)
Lemma updateOpenInterest_parts
    (now : Z) (outcome : FetchOutcome) (emitted_at : Z) (c : t) :
  updateOpenInterest now outcome emitted_at c
  = if throttled now c then (c, None) else settle now outcome emitted_at c.
Proof. reflexivity. Qed.

(** Two polls in flight at once: both pass the throttle on the new
    monitor, at the clock readings 1000 and 1200, and the response of the
    second arrives first.  Both are accepted, 200 ms apart; the history is
    not in the order of its timestamps, and [find] returns the sample of
    1200 where the oldest sample of the window is that of 1000. *)
Lemma overlapping_polls_example :
  let c0 := new "BTCUSDT" in
  let c1 := (settle 1200 (Body (Fin 222)) 1300 c0).1 in
  let c2 := (settle 1000 (Body (Fin 111)) 1400 c1).1 in
  throttled 1000 c0 = false /\ throttled 1200 c0 = false /\
  oiHistory c2 = [mkSample (Fin 222) 1200; mkSample (Fin 111) 1000] /\
  baseline_at 1500 c2 = Fin 222 /\
  oldest_in_window 1500 c2 (mkSample (Fin 111) 1000).
Proof.
  cbv zeta. split; [reflexivity|]. split; [reflexivity|].
  split; [reflexivity|]. split; [reflexivity|].
  split; [right; left; reflexivity|]. split; [vm_compute; discriminate|].
  intros h [<- | [<- | []]] _; simpl; lia.
Qed.

(** ** Calls that are accepted and calls that are not *)



Lemma shift_while_Forall (P : Sample -> Prop) (expired : Sample -> bool)
    (xs : list Sample) :
  List.Forall P xs -> List.Forall P (shift_while expired xs).
Proof.
  induction 1 as [|y xs Hy Hxs IH]; [constructor|].
  cbn [shift_while]. destruct (expired y); [exact IH|].
  constructor; assumption.
Qed.

Lemma fresh_sample (v : number) (now : Z) :
  (timestamp (mkSample v now) <? now - 300000) = false.
Proof. cbn [timestamp]. apply Z.ltb_ge. lia. Qed.




(** ** What every reachable state satisfies *)

Lemma consistent_new (symbol : string) : consistent (new symbol).
Proof. repeat split. constructor. Qed.

Lemma gtb_geb_zero (v : number) : gtb v zero = true -> geb v zero = true.
Proof.
  destruct v as [| | |q]; cbn; try congruence.
  rewrite negb_true_iff. intros H. apply Qle_bool_false in H.
  apply Qle_bool_iff. apply Qlt_le_weak. exact H.
Qed.

Lemma not_ltb_geb_zero (v : number) :
  isFinite v = true -> ltb v zero = false -> geb v zero = true.
Proof.
  destruct v as [| | |q]; cbn; try congruence.
  intros _. rewrite negb_false_iff. trivial.
Qed.

Lemma last_value_pushed (samples : list Sample) (v : number) (now : Z) :
  List.last (map value (samples ++ [mkSample v now])) zero = v.
Proof. rewrite map_app. cbn [map value]. apply last_last. Qed.

Lemma last_value_shift (expired : Sample -> bool) (samples : list Sample)
    (x : Sample) :
  expired x = false ->
  List.last (map value (shift_while expired (samples ++ [x]))) zero = value x.
Proof.
  intros Hx. induction samples as [|y samples IH].
  - cbn [app shift_while]. rewrite Hx. reflexivity.
  - cbn [app shift_while]. destruct (expired y); [exact IH|].
    change (y :: samples ++ [x]) with ((y :: samples) ++ [x]).
    rewrite map_app. cbn [map]. apply last_last.
Qed.

Lemma step_consistent (c : t) (call : Call) :
  consistent c -> consistent (step c call).
Proof.
  intros (Hcur & Hhist & Hlast).
  destruct call as [now outcome emitted_at | v now emitted_at]; cbn [step].
  - unfold updateOpenInterest.
    destruct ((now - lastFetchTime c <? FETCH_INTERVAL_MS) && gtb (currentOI c) zero);
      [repeat split; assumption|].
    destruct outcome as [| status | newVal]; try (repeat split; assumption).
    destruct (negb (isNaN newVal) && gtb newVal zero) eqn:Eok;
      [|repeat split; assumption].
    apply andb_true_iff in Eok. destruct Eok as [_ Epos].
    apply gtb_geb_zero in Epos.
    unfold consistent. cbn [fst currentOI oiHistory]. repeat split.
    + exact Epos.
    + apply shift_while_Forall, List.Forall_app. split; [exact Hhist|].
      constructor; [exact Epos | constructor].
    + symmetry. apply (last_value_shift _ _ (mkSample newVal now)), fresh_sample.
  - unfold update.
    destruct (negb (isFinite v) || ltb v zero) eqn:Ebad;
      [repeat split; assumption|].
    apply orb_false_iff in Ebad. destruct Ebad as [Efin Eneg].
    apply negb_false_iff in Efin.
    pose proof (not_ltb_geb_zero v Efin Eneg) as Hv.
    unfold consistent. cbn [fst currentOI oiHistory]. repeat split.
    + exact Hv.
    + apply List.Forall_app. split; [exact Hhist|].
      constructor; [exact Hv | constructor].
    + symmetry. apply last_value_pushed.
Qed.

Lemma run_consistent (calls : list Call) (c : t) :
  consistent c -> consistent (run c calls).
Proof.
  unfold run. revert c. induction calls as [|call rest IH]; intros c Hc.
  - exact Hc.
  - cbn [fold_left]. apply IH, step_consistent, Hc.
Qed.

Lemma baseline_from_history (now : Z) (c : t) :
  baseline_at now c = currentOI c \/
  exists h, In h (oiHistory c) /\ baseline_at now c = value h.
Proof.
  unfold baseline_at.
  destruct (List.find (fun h => now - WINDOW_MS <=? timestamp h) (oiHistory c))
    as [item|] eqn:Efind.
  - right. exists item. split; [|reflexivity].
    exact (proj1 (List.find_some _ _ Efind)).
  - destruct (oiHistory c) as [|h rest]; [left; reflexivity|].
    right. exists h. split; [left; reflexivity | reflexivity].
Qed.

(** X22.  Whatever calls the monitor has received, in whatever order and
    with whatever results of the requests, the open interest it reports is
    a number that is not negative (and not NaN), so is the baseline the
    change is measured against, and the current value is the value of the
    newest sample of the history (0 while the history is empty). *)
Theorem reported_oi_never_negative
    (symbol : string) (calls : list Call) (src : Source) (now : Z) :
  let c := run (new symbol) calls in
  geb (openInterest (buildMetrics src now c)) zero = true /\
  geb (baseline_at now c) zero = true /\
  currentOI c = List.last (map value (oiHistory c)) zero.
Proof.
  cbv zeta.
  destruct (run_consistent calls (new symbol) (consistent_new symbol))
    as (Hcur & Hhist & Hlast).
  split; [exact Hcur|]. split; [|exact Hlast].
  destruct (baseline_from_history now (run (new symbol) calls)) as [E | [h [Hin E]]].
  - rewrite E. exact Hcur.
  - rewrite E. rewrite List.Forall_forall in Hhist. exact (Hhist h Hin).
Qed.

(** ** The age of the history *)

Lemma history_sorted_bound (samples : list Sample) (now : Z) :
  history_sorted samples now ->
  List.Forall (fun h => timestamp h <= now) samples.
Proof.
  induction samples as [|s rest IH]; intros H; [constructor|].
  destruct H as (Hs & _ & Hrest). constructor; [exact Hs | exact (IH Hrest)].
Qed.

Lemma shift_while_sorted_bound (cutoff now : Z) (samples : list Sample) :
  history_sorted samples now ->
  List.Forall (fun h => cutoff <= timestamp h <= now)
    (shift_while (fun h => timestamp h <? cutoff) samples).
Proof.
  induction samples as [|s rest IH]; intros H; [constructor|].
  cbn [shift_while].
  destruct (Z.ltb_spec (timestamp s) cutoff) as [Hlt | Hge].
  - apply IH. destruct H as (_ & _ & H). exact H.
  - pose proof (history_sorted_bound _ _ H) as Hb.
    destruct H as (Hs & Hrest & _).
    inversion Hb as [|? ? _ Hb']; subst.
    constructor; [lia|].
    rewrite List.Forall_forall in Hrest, Hb' |- *.
    intros h Hin. specialize (Hrest h Hin). specialize (Hb' h Hin). lia.
Qed.

(** X23.  When the response of a poll is processed on a monitor whose
    history is in the order of its timestamps, none of them after the
    clock reading [now] of the poll, and the poll is accepted, the history
    it leaves holds only samples of the last five minutes: every sample
    has a timestamp between [now - 300000] and [now].  (The history is so
    when the clock does not run back and no call has come in since the
    poll began; see [overlapping_polls_example] for what happens
    otherwise.) *)
Theorem history_within_five_minutes
    (now : Z) (outcome : FetchOutcome) (emitted_at : Z) (c : t) :
  history_sorted (oiHistory c) now ->
  (settle now outcome emitted_at c).2 <> None ->
  List.Forall (fun h => now - 300000 <= timestamp h <= now)
    (oiHistory (settle now outcome emitted_at c).1).
Proof.
  intros Hsorted Hemit. unfold settle in *.
  destruct outcome as [| status | newVal]; try (contradiction Hemit; reflexivity).
  destruct (negb (isNaN newVal) && gtb newVal zero);
    [|contradiction Hemit; reflexivity].
  cbn [fst oiHistory]. apply shift_while_sorted_bound.
  apply (history_sorted_push _ now); [exact Hsorted | lia].
Qed.

Lemma history_within_five_minutes_witness :
  let c := run (new "BTCUSDT")
             [ CallUpdateOpenInterest 1000000 (Body (Fin 100)) 1000001;
               CallUpdateOpenInterest 1200000 (Body (Fin 150)) 1200001 ] in
  List.Forall (fun h => 1400000 - 300000 <= timestamp h <= 1400000)
    (oiHistory (settle 1400000 (Body (Fin 120)) 1400001 c).1).
Proof.
  cbv zeta.
  apply history_within_five_minutes.
  - vm_compute. repeat split; try discriminate; repeat constructor; discriminate.
  - vm_compute. discriminate.
Defined.

End OpenInterestMonitor.
